(** * template9BackEnd: sessions and favorites of [app.js]

    A shallow embedding of the request handlers of [src/app.js] that carry
    the session checks and the favorite toggle, with the storage engine
    (mongoose) and the token package (jsonwebtoken) kept at their interface.

    Conventions of the model
    - A stored document id ([ObjectId]) is represented by its string
      rendering, the form in which the handlers compare ids
      ([id.toString() !== carId]).  The cast of a request's text to an id,
      which [favorites.push] performs, is a parameter of the model
      ([castObjectId]); a lookup whose id does not cast is a rejected
      storage call.
    - The user and car collections are finite maps from id to stored record.
    - Each storage call of a request either completes or rejects; which one
      happens is an input of the handler (a fault plan indexed by the
      position of the call in the handler's program order).  A rejected
      write leaves the collection as it was.
    - An [async] handler ends in one of three ways: it sent a response, it
      returned without sending one, or its promise rejected.  A request
      stopped by the session middleware never reaches the handler.
    - The current time is an explicit input ([clock]).
    - The [email] of a query goes through the setter of the schema path
      ([lowercase: true]) before it is matched against the stored emails.
    - Functions of the JavaScript engine and of the packages that a
      handler calls on request data (regular expressions, [toLowerCase],
      [ObjectId.isValid]) are parameters of its model; the mail transport
      is a call of the fault plan like the storage calls. *)

From stdpp Require Import base strings pretty list gmap.
From Stdlib Require Import ZArith Ascii.

Local Open Scope Z_scope.

#[local] Set Warnings "-register-all".

(** ** JSON values and responses *)

Inductive JSON : Type :=
| JNull
| JBool (b : bool)
| JNum (n : Z)
| JStr (s : string)
| JArr (xs : list JSON)
| JObj (fields : list (string * JSON)).

(** [obj.key] on a JSON object: the first binding of [key]. *)
Definition jfield (key : string) (j : JSON) : option JSON :=
  match j with
  | JObj fields => (λ hit, hit.2.2) <$> list_find (λ kv, kv.1 = key) fields
  | _ => None
  end.

Definition jopt (key : string) (v : option JSON) : list (string * JSON) :=
  match v with
  | Some j => [(key, j)]
  | None => []
  end.

Record Response := mkResponse { status : Z; body : JSON }.

(** [res.json(b)] and [res.status(c).json(b)]. *)
Definition res_json (b : JSON) : Response := mkResponse 200 b.
Definition res_status_json (c : Z) (b : JSON) : Response := mkResponse c b.

Definition message (m : string) : JSON := JObj [("message", JStr m)].

(** ** Errors and the result of a call that may throw *)

Record Error := mkError {
  err_name : string;
  err_code : option Z;
  err_message : string
}.

Inductive Result (A : Type) : Type :=
| Ok (a : A)
| Throw (e : Error).
Arguments Ok {A} a.
Arguments Throw {A} e.

#[global] Instance Result_ret : MRet Result := λ A a, Ok a.
#[global] Instance Result_bind : MBind Result := λ A B f m,
  match m with
  | Ok a => f a
  | Throw e => Throw e
  end.

(** ** Documents: [carSchema] and [userSchema] *)

Record Car := mkCar {
  model : string;
  make : string;
  year : Z;
  color : string;
  miles : option Z;
  fueltype : option string;
  gearbox : option string;
  city : option string;
  price : Z;
  images : list string;
  armored : bool;
  carOwnerEmail : option string
}.

Record User := mkUser {
  name : string;
  email : string;
  password : string;
  passwordConfirm : option string;
  favorites : list string
}.

(** A user document held by a handler: the stored record under its [_id],
    with [password] absent after [.select("-password")]. *)
Record UserDoc := mkUserDoc {
  _id : string;
  doc_name : string;
  doc_email : string;
  doc_password : option string;
  doc_passwordConfirm : option string;
  doc_favorites : list string
}.

Definition hydrate (id : string) (u : User) : UserDoc :=
  mkUserDoc id (name u) (email u) (Some (password u)) (passwordConfirm u)
            (favorites u).

Definition select_minus_password (d : UserDoc) : UserDoc :=
  mkUserDoc (_id d) (doc_name d) (doc_email d) None (doc_passwordConfirm d)
            (doc_favorites d).

Definition set_favorites (favs : list string) (u : User) : User :=
  mkUser (name u) (email u) (password u) (passwordConfirm u) favs.

Definition doc_set_favorites (favs : list string) (d : UserDoc) : UserDoc :=
  mkUserDoc (_id d) (doc_name d) (doc_email d) (doc_password d)
            (doc_passwordConfirm d) favs.

Definition carJSON (id : string) (c : Car) : JSON :=
  JObj ([("_id", JStr id); ("model", JStr (model c)); ("make", JStr (make c));
         ("year", JNum (year c)); ("color", JStr (color c))]
        ++ jopt "miles" (JNum <$> miles c)
        ++ jopt "fueltype" (JStr <$> fueltype c)
        ++ jopt "gearbox" (JStr <$> gearbox c)
        ++ jopt "city" (JStr <$> city c)
        ++ [("price", JNum (price c)); ("images", JArr (JStr <$> images c));
            ("armored", JBool (armored c))]
        ++ jopt "carOwnerEmail" (JStr <$> carOwnerEmail c)).

Definition userDocJSON (d : UserDoc) : JSON :=
  JObj ([("_id", JStr (_id d)); ("name", JStr (doc_name d));
         ("email", JStr (doc_email d))]
        ++ jopt "password" (JStr <$> doc_password d)
        ++ jopt "passwordConfirm" (JStr <$> doc_passwordConfirm d)
        ++ [("favorites", JArr (JStr <$> doc_favorites d))]).

(** ** The storage collaborator *)

Record Store := mkStore {
  users : gmap string User;
  cars : gmap string Car
}.

Definition set_users (us : gmap string User) (st : Store) : Store :=
  mkStore us (cars st).

(** The fault plan of one request: call number [k] of the handler rejects
    with [e] when the plan maps [k] to [Some e]. *)
Definition Faults : Type := nat → option Error.

Definition no_faults : Faults := λ _, None.

Definition storage_call {A : Type} (flt : Faults) (k : nat) (a : A) : Result A :=
  match flt k with
  | Some e => Throw e
  | None => Ok a
  end.

(** [User.findById(id)]: the document, or [null]. *)
Definition findById (flt : Faults) (k : nat) (st : Store) (id : string)
  : Result (option UserDoc) :=
  storage_call flt k (hydrate id <$> users st !! id).

(** [user.save()] after [favorites] was modified: one write of the
    modified path under the document's [_id]. *)
Definition save (flt : Faults) (k : nat) (st : Store) (d : UserDoc)
  : Result Store :=
  storage_call flt k
    (set_users (alter (set_favorites (doc_favorites d)) (_id d) (users st)) st).

(** ** Outcome of a request *)

Inductive VerificationError := Malformed | BadSignature | Expired.

(** The error kinds of section 7 of the spec; [InvalidSession] keeps the
    sub-kind of the verification failure. *)
Inductive ErrorKind :=
| NoSession
| InvalidSession (why : VerificationError)
| IdentityGone
| NotFound
| StorageFailure
| ValidationFailure
| DuplicateKey.

Inductive Outcome :=
| Responded (r : Response)
| NoResponse
| Unhandled (e : Error)
| Rejected (k : ErrorKind).

(** ** PATCH /favoriteCar/:carId (lines 251-281) *)

(** Lines 262-270.  [includes] and [filter] compare the text of [carId]
    with the renderings of the stored ids; [push] casts [carId] to an id,
    stores the id (so its rendering), and throws when the text does not
    cast.  [castObjectId] is that cast: the rendering of the id a text
    denotes, if it denotes one. *)
Definition toggle (castObjectId : string → option string)
    (favs : list string) (carId : string) : Result (list string) :=
  if bool_decide (carId ∈ favs)
  then Ok (filter (λ id, id ≠ carId) favs)
  else
    match castObjectId carId with
    | Some id => Ok (favs ++ [id])
    | None =>
        Throw (mkError "CastError" None "Cast to ObjectId failed for value")
    end.

Definition favoriteCar (castObjectId : string → option string)
    (flt : Faults) (st : Store) (carId userId : string) : Outcome * Store :=
  let attempt : Result (Response * Store) :=
    user ← findById flt 0 st userId;
    match user with
    | None => Ok (res_status_json 404 (message "User not found"), st)
    | Some user =>
        favs ← toggle castObjectId (doc_favorites user) carId;
        let user := doc_set_favorites favs user in
        st' ← save flt 1 st user;
        Ok (res_json (JObj [("message", JStr "Car favorited");
                            ("favorites", JArr (JStr <$> doc_favorites user))]),
            st')
    end in
  match attempt with
  | Ok (r, st') => (Responded r, st')
  | Throw _ =>
      (Responded (res_status_json 500 (message "Error updating favorite status")),
       st)
  end.

(** ** POST /sellACar (lines 201-248) *)

(** [Car.create(fields)]: schema validation and the insertion are the
    storage collaborator's; a validation failure is a rejection whose
    [name] is ["ValidationError"]. *)
Definition Car_create (flt : Faults) (k : nat) (st : Store) (newId : string)
    (c : Car) : Result (JSON * Store) :=
  storage_call flt k
    (carJSON newId c, mkStore (users st) (<[newId := c]> (cars st))).

Definition with_images (files : list string) (c : Car) : Car :=
  mkCar (model c) (make c) (year c) (color c) (miles c) (fueltype c)
        (gearbox c) (city c) (price c) files (armored c) (carOwnerEmail c).

(** [req.files.map((file) => file.filename)]: [req.files] is the array
    the upload middleware leaves on the request, [undefined] when it left
    none, in which case the call throws. *)
Definition filenames (files : option (list string)) : Result (list string) :=
  match files with
  | Some fs => Ok fs
  | None =>
      Throw (mkError "TypeError" None
               "Cannot read properties of undefined (reading 'map')")
  end.

Definition sellACar (flt : Faults) (st : Store) (newId : string)
    (fields : Car) (files : option (list string)) : Outcome * Store :=
  let attempt : Result (Response * Store) :=
    images ← filenames files;
    '(newCar, st') ← Car_create flt 0 st newId (with_images images fields);
    Ok (res_json (JObj [("message", JStr "Ad created"); ("car", newCar)]), st') in
  match attempt with
  | Ok (r, st') => (Responded r, st')
  | Throw error =>
      if bool_decide (err_name error = "ValidationError")
      then (Responded (res_json (message (err_message error))), st)
      else (NoResponse, st)
  end.

(** ** POST /signup (lines 320-344) *)

Definition lower_ascii (c : Ascii.ascii) : Ascii.ascii :=
  let n := Ascii.nat_of_ascii c in
  if bool_decide (65 ≤ n ≤ 90)%nat then Ascii.ascii_of_nat (n + 32) else c.

(** [lowercase: true] of the [email] path, on the ASCII letters. *)
Fixpoint lowercase (s : string) : string :=
  match s with
  | EmptyString => EmptyString
  | String c s' => String (lower_ascii c) (lowercase s')
  end.

(** [User.findOne({ email })]: the query value goes through the setter
    of the [email] path, as a stored value does, and is then matched with
    the stored emails; the answer is a document with that email, or
    [null]. *)
Definition findOne_email (flt : Faults) (k : nat) (st : Store) (e : string)
  : Result (option UserDoc) :=
  storage_call flt k
    ((λ hit, hydrate hit.2.1 hit.2.2)
       <$> list_find (λ kv, email kv.2 = lowercase e)
                     (map_to_list (users st))).

Definition User_create (flt : Faults) (k : nat) (st : Store) (newId : string)
    (u : User) : Result (UserDoc * Store) :=
  storage_call flt k
    (hydrate newId u, set_users (<[newId := u]> (users st)) st).

Record SignupBody := mkSignupBody {
  body_name : string;
  body_email : string;
  body_password : string;
  body_passwordConfirm : option string
}.

Definition signup (flt : Faults) (st : Store) (newId : string)
    (b : SignupBody) : Outcome * Store :=
  let attempt : Result (Response * Store) :=
    userExists ← findOne_email flt 0 st (body_email b);
    match userExists with
    | Some _ =>
        Ok (res_json (message "There is already an account with that email!"),
            st)
    | None =>
        '(newUser, st') ← User_create flt 1 st newId
            (mkUser (body_name b) (lowercase (body_email b)) (body_password b)
                    (body_passwordConfirm b) []);
        Ok (res_json (JObj [("message", JStr "User signed up");
                            ("newUser", userDocJSON newUser)]), st')
    end in
  match attempt with
  | Ok (r, st') => (Responded r, st')
  | Throw error =>
      if bool_decide (err_name error = "ValidationError")
      then (Responded (res_json (message (err_message error))), st)
      else if bool_decide (err_code error = Some 11000)
      then (Responded (res_json (message "That name is already taken!")), st)
      else (NoResponse, st)
  end.

(** ** Process configuration and clock *)

Record Env := mkEnv {
  JWT_SECRET : string;
  JWT_EXPIRE_TIME : Z;
  clock : Z
}.

(** ** Token service, session gate and the handlers that read the session *)

Record Claims := mkClaims {
  claim_id : string;
  claim_iat : Z;
  claim_exp : Z
}.

Section Session.
(** The keyed signature of the token: any function of key and payload. *)
Context {Tag : Type} `{EqDecision Tag}.
Variable mac : string → Claims → Tag.

(** A token as the verifier sees it: text that does not parse, or a
    payload with the signature that came with it. *)
Inductive Token :=
| Garbled (raw : string)
| Signed (c : Claims) (t : Tag).

(** Modelled from the spec: the Token Service (section 4.1), which the
    repository takes from the jsonwebtoken package.  [issue] signs
    [{identityId}] with an expiry of now + ttl. *)
Definition issue (identityId secretKey : string) (ttl now : Z) : Token :=
  let c := mkClaims identityId now (now + ttl) in
  Signed c (mac secretKey c).

(** Modelled from the spec: [verify] of the Token Service (section 4.1):
    [Malformed] if the token cannot be parsed, [BadSignature] if the
    signature does not match, [Expired] if past expiry, else the embedded
    identity id; a function of token, key and current time only. *)
Definition verify (token : Token) (secretKey : string) (now : Z)
  : VerificationError + string :=
  match token with
  | Garbled _ => inl Malformed
  | Signed c t =>
      if decide (t = mac secretKey c)
      then if decide (claim_exp c ≤ now) then inl Expired
           else inr (claim_id c)
      else inl BadSignature
  end.

(** [jwt.verify(token, secret)] as the handlers call it: the decoded
    [id], or a thrown error of the package's error classes. *)
Definition jwt_verify (env : Env) (token : Token) : Result string :=
  match verify token (JWT_SECRET env) (clock env) with
  | inr id => Ok id
  | inl Malformed => Throw (mkError "JsonWebTokenError" None "jwt malformed")
  | inl BadSignature =>
      Throw (mkError "JsonWebTokenError" None "invalid signature")
  | inl Expired => Throw (mkError "TokenExpiredError" None "jwt expired")
  end.

(** [error instanceof jwt.JsonWebTokenError]: the class and its
    subclasses. *)
Definition is_JsonWebTokenError (e : Error) : bool :=
  bool_decide (err_name e ∈ ["JsonWebTokenError"; "TokenExpiredError";
                             "NotBeforeError"]).

(** *** POST /login (lines 348-374) *)

Definition falsy (s : option string) : bool :=
  match s with
  | None => true
  | Some s => bool_decide (s = "")
  end.

(** The outcome and the [jwt] cookie set on the response, if any. *)
Definition login (env : Env) (flt : Faults) (st : Store)
    (email password : option string) : Outcome * option Token :=
  if falsy email || falsy password
  then (Responded
          (res_json (message "Please provide a valid email and password!")),
        None)
  else
    match findOne_email flt 0 st (default "" email) with
    | Throw e => (Unhandled e, None)
    | Ok None => (Responded (res_json (message "User not found!")), None)
    | Ok (Some user) =>
        if bool_decide (password ≠ doc_password user)
        then (Responded (res_json (message "Wrong password!")), None)
        else
          let token := issue (_id user) (JWT_SECRET env)
                             (JWT_EXPIRE_TIME env) (clock env) in
          (Responded (res_json (message "User logged in!")), Some token)
    end.

(** *** GET /getUser (lines 377-410) *)

(** [jwt.verify] returns the payload object or throws, so the branch
    [if (!decoded)] is never taken. *)
Definition getUser (env : Env) (flt : Faults) (st : Store)
    (token : option Token) : Outcome :=
  match token with
  | None => Responded (res_json (message "Not authenticated"))
  | Some token =>
      let attempt : Result Response :=
        decoded ← jwt_verify env token;
        currentUser ← findById flt 0 st decoded;
        match currentUser with
        | None =>
            Ok (res_status_json 404
                  (message "The user belonging to this token no longer exists"))
        | Some currentUser =>
            Ok (res_json (JObj [("currentUser", userDocJSON currentUser)]))
        end in
      match attempt with
      | Ok r => Responded r
      | Throw _ =>
          Responded (res_status_json 401 (message "Invalid or expired token"))
      end
  end.

(** *** GET /favorites (lines 284-315) *)

(** [.populate("favorites")]: each id replaced by its car document, ids
    without a document dropped. *)
Definition populate (st : Store) (favs : list string) : list JSON :=
  omap (λ id, carJSON id <$> cars st !! id) favs.

Definition findById_populate (flt : Faults) (k : nat) (st : Store)
    (id : string) : Result (option (UserDoc * list JSON)) :=
  storage_call flt k
    ((λ u, (hydrate id u, populate st (favorites u))) <$> users st !! id).

Definition favoritesOf (env : Env) (flt : Faults) (st : Store)
    (token : option Token) : Outcome :=
  match token with
  | None =>
      Responded (res_json (message "JWT must be provided. Please log in."))
  | Some token =>
      let attempt : Result Response :=
        decoded ← jwt_verify env token;
        found ← findById flt 0 st decoded;
        match select_minus_password <$> found with
        | None => Ok (res_status_json 401 (message "User not found"))
        | Some req_user =>
            user ← findById_populate flt 1 st (_id req_user);
            match user with
            | None => Ok (res_status_json 404 (message "User not found"))
            | Some (user, populated) =>
                Ok (res_json (JObj [("favorites", JArr populated)]))
            end
        end in
      match attempt with
      | Ok r => Responded r
      | Throw error =>
          if is_JsonWebTokenError error
          then Responded (res_status_json 401 (message "Invalid token"))
          else Responded
                 (res_status_json 500 (message "Error fetching favorites"))
      end
  end.

(** *** The session gate in front of the protected routes *)

(** Modelled from the spec: the Session Gate (section 4.2), the
    middleware [isThereLoggedUser] that [app.js] requires from
    [./middlewares].  No token in the session carrier: [NoSession]; a
    token that fails [verify]: [InvalidSession], keeping the sub-kind;
    a verified id absent from the Credential Store: [IdentityGone];
    otherwise the resolved identity, attached for the handler. *)
Definition sessionGate (env : Env) (st : Store) (carrier : option Token)
  : ErrorKind + UserDoc :=
  match carrier with
  | None => inl NoSession
  | Some token =>
      match verify token (JWT_SECRET env) (clock env) with
      | inl why => inl (InvalidSession why)
      | inr id =>
          match users st !! id with
          | None => inl IdentityGone
          | Some u => inr (hydrate id u)
          end
      end
  end.

(** A handler behind the gate receives the attached identity. *)
Definition Handler : Type := UserDoc → Store → Outcome * Store.

(** [app.METHOD(path, isThereLoggedUser, handler)]: the handler runs
    only when the gate passes the request on. *)
Definition protected (env : Env) (st : Store) (carrier : option Token)
    (handler : Handler) : Outcome * Store :=
  match sessionGate env st carrier with
  | inl k => (Rejected k, st)
  | inr identity => handler identity st
  end.

Definition favoriteCar_route (castObjectId : string → option string)
    (env : Env) (flt : Faults) (st : Store)
    (carrier : option Token) (carId userId : string) : Outcome * Store :=
  protected env st carrier
            (λ _ st, favoriteCar castObjectId flt st carId userId).

Definition getUser_route (env : Env) (flt : Faults) (st : Store)
    (carrier : option Token) : Outcome * Store :=
  protected env st carrier (λ _ st, (getUser env flt st carrier, st)).

Definition favorites_route (env : Env) (flt : Faults) (st : Store)
    (carrier : option Token) : Outcome * Store :=
  protected env st carrier (λ _ st, (favoritesOf env flt st carrier, st)).

End Session.

Arguments Token Tag : clear implicits.
Arguments Handler : clear implicits.

(** ** The favorite set and runs of toggle requests *)

(** The set a favorites array stands for. *)
Definition favset (favs : list string) : gset string := list_to_set favs.

Record ToggleCall := mkToggleCall {
  call_faults : Faults;
  call_carId : string;
  call_userId : string
}.

(** The collection after a sequence of PATCH /favoriteCar requests. *)
Definition run_toggles (castObjectId : string → option string)
    (st : Store) (calls : list ToggleCall) : Store :=
  foldl (λ st c,
           (favoriteCar castObjectId (call_faults c) st (call_carId c)
                        (call_userId c)).2)
        st calls.

Definition fault_at (n : nat) (e : Error) : Faults :=
  λ k, if decide (k = n) then Some e else None.

(** No stored favorites list holds an id twice. *)
Definition favorites_NoDup (st : Store) : Prop :=
  ∀ id u, users st !! id = Some u → NoDup (favorites u).

(** ** Sample data *)

Definition ann : User := mkUser "ann" "a@x.com" "p1" (Some "p1") [].
Definition bob : User := mkUser "bob" "b@x.com" "p2" (Some "p2") ["r1"].

Definition beetle : Car :=
  mkCar "Beetle" "VW" 1972 "blue" (Some 120000) None None (Some "Recife")
        9000 ["1.png"] false (Some "a@x.com").

Definition sample_store : Store :=
  mkStore (<["u1" := ann]> (<["u2" := bob]> ∅)) (<["r1" := beetle]> ∅).

Definition sample_env : Env := mkEnv "s3cret" 3600 1000.

(** A keyed tag that is plainly a function of key and payload. *)
Definition sample_mac (key : string) (c : Claims) : string * string * Z :=
  (key, claim_id c, claim_exp c).

Definition network_error : Error :=
  mkError "MongoNetworkError" None "connection timed out".

(** A stand-in for the cast in the examples: a text of 24 hexadecimal
    digits is an id, rendered in lower case; no other text is. *)
Definition is_hex_digit (c : ascii) : bool :=
  let n := nat_of_ascii c in
  bool_decide (48 ≤ n ≤ 57)%nat || bool_decide (65 ≤ n ≤ 70)%nat
  || bool_decide (97 ≤ n ≤ 102)%nat.

Definition sample_castObjectId (text : string) : option string :=
  if bool_decide (String.length text = 24%nat)
     && forallb is_hex_digit (String.list_ascii_of_string text)
  then Some (lowercase text)
  else None.

Definition car1 : string := "c00000000000000000000001".
Definition CAR1 : string := "C00000000000000000000001".
Definition car2 : string := "c00000000000000000000002".

(** Users and cars under ids of that form: cy has one favorite. *)
Definition cy : User := mkUser "cy" "c@x.com" "p3" (Some "p3") [car1].

Definition hex_store : Store :=
  mkStore (<["u1" := ann]> (<["u3" := cy]> ∅))
          (<[car1 := beetle]> ∅).

(** A collection right after the signup of one user. *)
Definition card_store : Store := mkStore (<["u1" := ann]> ∅) ∅.

(** The same car toggled twice for one user, its id spelled in upper
    case. *)
Definition upper_case_calls : list ToggleCall :=
  [mkToggleCall no_faults CAR1 "u1"; mkToggleCall no_faults CAR1 "u1"].

(** The end-to-end scenario of section 8 of the spec: signup, login, two
    toggles of the same car. *)
Definition car_lot : Store := mkStore ∅ (<[car1 := beetle]> ∅).

Definition ann_body : SignupBody := mkSignupBody "ann" "A@x.com" "p1" (Some "p1").

Definition after_signup : Store := (signup no_faults car_lot "u1" ann_body).2.

Definition ann_session : option (Token (string * string * Z)) :=
  (login sample_mac sample_env no_faults after_signup
         (Some "a@x.com") (Some "p1")).2.

Definition after_first_patch : Store :=
  (favoriteCar_route sample_mac sample_castObjectId sample_env no_faults
                     after_signup ann_session car1 "u1").2.

Definition after_second_patch : Store :=
  (favoriteCar_route sample_mac sample_castObjectId sample_env no_faults
                     after_first_patch ann_session car1 "u1").2.

(** ** The upload middleware's callbacks (lines 27-48) *)

(** [s.split(sep)] for a separator of one character. *)
Fixpoint split_on (sep : Ascii.ascii) (s : string) : list string :=
  match s with
  | EmptyString => [EmptyString]
  | String c s' =>
      if decide (c = sep) then EmptyString :: split_on sep s'
      else match split_on sep s' with
           | piece :: pieces => String c piece :: pieces
           | [] => [String c EmptyString]
           end
  end.

(** A value inside a template literal: [undefined] renders as the word. *)
Definition interpolate (v : option string) : string := default "undefined" v.

(** [multerFilter]: what it passes to [cb], the error first. *)
Definition multerFilter (mimetype : string) : Result bool :=
  if String.prefix "image" mimetype then Ok true
  else Throw (mkError "Error" None "Not an image! Only images allowed.").

(** [multerStorage.filename], with [Date.now()] as [now]. *)
Definition filename (now : Z) (mimetype : string) : string :=
  let ext := split_on "/"%char mimetype !! 1%nat in
  pretty now +:+ "." +:+ interpolate ext.

(** ** GET /cars (lines 145-148) *)

(** [Car.find(filter)]: the stored cars the filter keeps. *)
Definition Car_find (flt : Faults) (k : nat) (st : Store) (keep : Car → bool)
  : Result (list (string * Car)) :=
  storage_call flt k
    (filter (λ kv, keep kv.2 = true) (map_to_list (cars st))).

Definition carsJSON (found : list (string * Car)) : JSON :=
  JArr ((λ kv, carJSON kv.1 kv.2) <$> found).

Definition getCars (flt : Faults) (st : Store) : Outcome :=
  match Car_find flt 0 st (λ _, true) with
  | Throw e => Unhandled e
  | Ok found => Responded (res_json (JObj [("cars", carsJSON found)]))
  end.

Section Listings.
(** [new RegExp(pattern, "i")]: the test of the compiled expression, or
    the error thrown for a pattern that does not compile. *)
Variable RegExp_i : string → Result (string → bool).
(** [String.prototype.toLowerCase]. *)
Variable toLowerCase : string → string.
(** [mongoose.Types.ObjectId.isValid]. *)
Variable ObjectId_isValid : string → bool.

(** *** GET /carsByMake (lines 151-178) *)

Definition carsByMake (flt : Faults) (st : Store) (query_make : option string)
  : Outcome :=
  let attempt : Result Response :=
    if falsy query_make
    then Ok (res_json (message "Please type a make."))
    else
      let wanted := default "" query_make in
      re ← RegExp_i wanted;
      found ← Car_find flt 0 st (λ car, re (make car));
      if bool_decide (length found = 0%nat)
      then Ok (res_json (message "No cars with this make!"))
      else
        let exactMatch :=
          existsb (λ kv, bool_decide (toLowerCase (make kv.2)
                                      = toLowerCase wanted)) found in
        if negb exactMatch
        then Ok (res_json (message "No cars with this make!"))
        else Ok (res_json (JObj [("message", JStr "Make found");
                                 ("cars", carsJSON found)])) in
  match attempt with
  | Ok r => Responded r
  | Throw _ => Responded (res_status_json 500 (message "Error fetching cars"))
  end.

(** *** GET /cars/:carId (lines 181-198) *)

(** [Car.findById(id)]: the document, or [null]. *)
Definition Car_findById (flt : Faults) (k : nat) (st : Store) (id : string)
  : Result (option (string * Car)) :=
  storage_call flt k ((λ c, (id, c)) <$> cars st !! id).

Definition getCar (flt : Faults) (st : Store) (carId : string) : Outcome :=
  if negb (ObjectId_isValid carId)
  then Responded (res_json (message "Invalid car ID"))
  else
    match Car_findById flt 0 st carId with
    | Throw _ => Responded (res_json (message "Server error"))
    | Ok None => Responded (res_json (message "Car not found"))
    | Ok (Some car) => Responded (res_json (JObj [("car", carJSON car.1 car.2)]))
    end.

End Listings.

(** ** POST /sendEmail (lines 413-449) *)

Record EmailBody := mkEmailBody {
  mail_name : option string;
  mail_email : option string;
  mail_number : option string;
  mail_message : option string;
  mail_carOwnerEmail : option string;
  mail_subject : option string
}.

(** [mailOptions]. *)
Record Mail := mkMail {
  mail_from : string;
  mail_to : string;
  mail_subject_line : string;
  mail_text : string
}.

Definition dquote : string := String (Ascii.ascii_of_nat 34) EmptyString.
Definition newline : string := String (Ascii.ascii_of_nat 10) EmptyString.

Definition mailOptions (b : EmailBody) : Mail :=
  mkMail
    (dquote +:+ interpolate (mail_name b) +:+ dquote +:+ " <"
       +:+ interpolate (mail_email b) +:+ ">")
    (interpolate (mail_carOwnerEmail b))
    (interpolate (mail_name b) +:+ " is INTERESTED in your "
       +:+ interpolate (mail_subject b) +:+ "!")
    ("Name: " +:+ interpolate (mail_name b) +:+ newline
       +:+ "Email: " +:+ interpolate (mail_email b) +:+ newline
       +:+ "Phone: " +:+ interpolate (mail_number b) +:+ newline +:+ newline
       +:+ "Message:" +:+ newline +:+ interpolate (mail_message b)).

(** The handler over the mails handed to the transport so far;
    [transporter.sendMail] is call 0 of the fault plan. *)
Definition sendEmail (flt : Faults) (outbox : list Mail) (b : EmailBody)
  : Outcome * list Mail :=
  if falsy (mail_name b) || falsy (mail_email b) || falsy (mail_number b)
     || falsy (mail_message b) || falsy (mail_carOwnerEmail b)
  then (Responded (res_status_json 400 (message "All fields are required!")),
        outbox)
  else
    match storage_call flt 0 (outbox ++ [mailOptions b]) with
    | Ok outbox' =>
        (Responded (res_json (message "Email sent successfully!")), outbox')
    | Throw _ =>
        (Responded (res_status_json 500 (message "Error sending email")),
         outbox)
    end.

(** ** POST /logout (lines 453-456) *)


(** ** Sequences of requests that write to the collections *)

Inductive Call :=
| CallSignup (flt : Faults) (newId : string) (b : SignupBody)
| CallSellACar (flt : Faults) (newId : string) (fields : Car)
    (files : option (list string))
| CallFavoriteCar (flt : Faults) (carId userId : string).

Definition serve (castObjectId : string → option string) (st : Store)
    (c : Call) : Store :=
  match c with
  | CallSignup flt newId b => (signup flt st newId b).2
  | CallSellACar flt newId fields files => (sellACar flt st newId fields files).2
  | CallFavoriteCar flt carId userId =>
      (favoriteCar castObjectId flt st carId userId).2
  end.

Definition run (castObjectId : string → option string) (st : Store)
    (calls : list Call) : Store :=
  foldl (serve castObjectId) st calls.

(** The storage engine gives a new document an id that no stored document
    of the collection has. *)
Definition fresh (st : Store) (c : Call) : Prop :=
  match c with
  | CallSignup _ newId _ => users st !! newId = None
  | CallSellACar _ newId _ _ => cars st !! newId = None
  | CallFavoriteCar _ _ _ => True
  end.

Fixpoint all_fresh (castObjectId : string → option string) (st : Store)
    (calls : list Call) : Prop :=
  match calls with
  | [] => True
  | c :: calls =>
      fresh st c ∧ all_fresh castObjectId (serve castObjectId st c) calls
  end.

(** A toggle request spells its car id as ids are rendered, or with a text
    that is no id at all. *)
Definition spelled_canonically (castObjectId : string → option string)
    (c : Call) : Prop :=
  match c with
  | CallFavoriteCar _ carId _ =>
      castObjectId carId = Some carId ∨ castObjectId carId = None
  | _ => True
  end.

(** Every stored email is in lower case. *)
Definition emails_lowercase (st : Store) : Prop :=
  ∀ id u, users st !! id = Some u → lowercase (email u) = email u.

(** Stand-ins for the engine's functions in the examples: a pattern test
    by prefix up to letter case, with one pattern that does not compile,
    and an id check that refuses the empty id. *)
Definition sample_RegExp_i (pattern : string) : Result (string → bool) :=
  if bool_decide (pattern = "(")
  then Throw (mkError "SyntaxError" None "Invalid regular expression")
  else Ok (λ s, String.prefix (lowercase pattern) (lowercase s)).

Definition sample_isValid (id : string) : bool := negb (bool_decide (id = "")).

Definition kombi : Car :=
  mkCar "Kombi" "VWagen" 1975 "white" None None None None 7000 [] false None.

Definition lot_store : Store :=
  mkStore (<["u1" := ann]> ∅) (<["r1" := beetle]> (<["r2" := kombi]> ∅)).

Definition sample_run : list Call :=
  [CallSignup no_faults "u3" (mkSignupBody "cy" "C@x.com" "p3" (Some "p3"));
   CallFavoriteCar no_faults "r1" "u2";
   CallSellACar no_faults "r7" kombi (Some ["7.png"]);
   CallFavoriteCar no_faults car2 "u2";
   CallFavoriteCar no_faults car1 "u3";
   CallSignup (fault_at 1 network_error) "u4"
              (mkSignupBody "di" "d@x.com" "p4" None)].

(** ** Properties of [toggle] *)

Section toggle_facts.
Variable castObjectId : string → option string.
Implicit Types (S : list string) (r x : string).

Lemma toggle_member S r :
  r ∈ S → toggle castObjectId S r = Ok (filter (λ id, id ≠ r) S).
Proof. intros Hin. unfold toggle. by rewrite bool_decide_eq_true_2. Qed.

Lemma toggle_cast S r id :
  r ∉ S → castObjectId r = Some id → toggle castObjectId S r = Ok (S ++ [id]).
Proof.
  intros Hnin Hcast. unfold toggle.
  by rewrite bool_decide_eq_false_2, Hcast.
Qed.

Lemma toggle_no_cast S r :
  r ∉ S → castObjectId r = None →
  ∃ e, toggle castObjectId S r = Throw e.
Proof.
  intros Hnin Hcast. unfold toggle.
  rewrite bool_decide_eq_false_2, Hcast by done. by eexists.
Qed.

Lemma toggle_Ok S r S' :
  toggle castObjectId S r = Ok S' →
  (r ∈ S ∧ S' = filter (λ id, id ≠ r) S)
  ∨ ((r ∉ S) ∧ (∃ id, castObjectId r = Some id ∧ S' = S ++ [id])).
Proof.
  unfold toggle. case_bool_decide as Hin.
  - intros [= <-]. by left.
  - destruct (castObjectId r) as [id|] eqn:Hcast; [|done].
    intros [= <-]. right. split; [done|]. by exists id.
Qed.

(** A car id spelled as ids are rendered. *)
Lemma toggle_canonical S r :
  castObjectId r = Some r →
  ∃ S', toggle castObjectId S r = Ok S'
        ∧ ∀ x, x ∈ S' ↔ (x ∈ S ∧ x ≠ r) ∨ (x = r ∧ r ∉ S).
Proof.
  intros Hcast. destruct (decide (r ∈ S)) as [Hin|Hnin].
  - eexists. split; [by apply toggle_member|]. intros x.
    rewrite list_elem_of_filter. tauto.
  - eexists. split; [by apply toggle_cast|]. intros x.
    rewrite elem_of_app, list_elem_of_singleton.
    split; [|tauto].
    intros [Hx| ->]; [left|right]; split; try done.
    by intros ->.
Qed.

Lemma toggle_canonical_twice S r :
  castObjectId r = Some r →
  ∃ S' S'', toggle castObjectId S r = Ok S'
            ∧ toggle castObjectId S' r = Ok S''
            ∧ favset S'' = favset S.
Proof.
  intros Hcast.
  destruct (toggle_canonical S r Hcast) as (S' & HS' & Hin').
  destruct (toggle_canonical S' r Hcast) as (S'' & HS'' & Hin'').
  exists S', S''. split_and!; [done..|].
  apply set_eq. intros x. unfold favset.
  rewrite !elem_of_list_to_set, Hin'', !Hin'.
  destruct (decide (x = r)) as [->|Hne]; [|tauto].
  destruct (decide (r ∈ S)); tauto.
Qed.

Lemma NoDup_toggle S r S' :
  NoDup S →
  castObjectId r = Some r ∨ castObjectId r = None →
  toggle castObjectId S r = Ok S' →
  NoDup S'.
Proof.
  intros Hnd Hcanon Ht.
  apply toggle_Ok in Ht as [[Hin ->]|(Hnin & id & Hcast & ->)].
  - by apply NoDup_filter.
  - destruct Hcanon as [Hr|Hr]; rewrite Hr in Hcast; [|done].
    injection Hcast as <-. apply NoDup_app.
    split_and!; [done| |apply NoDup_singleton].
    intros x Hx ->%list_elem_of_singleton. done.
Qed.
End toggle_facts.

(** ** The handler of PATCH /favoriteCar/:carId *)

Lemma alter_present {A} (f : A → A) (m : gmap string A) k a :
  m !! k = Some a → alter f k m = <[k := f a]> m.
Proof.
  intros Hk. apply map_eq. intros j.
  rewrite lookup_alter, lookup_insert.
  destruct (decide (k = j)) as [->|]; [by rewrite Hk|done].
Qed.

Lemma favoriteCar_found castObjectId flt st carId userId u :
  users st !! userId = Some u →
  flt 0%nat = None →
  favoriteCar castObjectId flt st carId userId =
    match toggle castObjectId (favorites u) carId, flt 1%nat with
    | Ok favs, None =>
        (Responded
           (res_json (JObj [("message", JStr "Car favorited");
                            ("favorites", JArr (JStr <$> favs))])),
         set_users (<[userId := set_favorites favs u]> (users st)) st)
    | _, _ =>
        (Responded
           (res_status_json 500 (message "Error updating favorite status")),
         st)
    end.
Proof.
  intros Hu H0. unfold favoriteCar, findById, save, storage_call.
  rewrite H0, Hu. simpl.
  destruct (toggle castObjectId (favorites u) carId) as [favs|e]; simpl;
    [|done].
  destruct (flt 1%nat); simpl; [done|].
  by rewrite (alter_present _ _ _ _ Hu).
Qed.

Lemma favoriteCar_store castObjectId flt st carId userId :
  (favoriteCar castObjectId flt st carId userId).2 = st
  ∨ ∃ u favs,
      users st !! userId = Some u
      ∧ toggle castObjectId (favorites u) carId = Ok favs
      ∧ (favoriteCar castObjectId flt st carId userId).2 =
          set_users (<[userId := set_favorites favs u]> (users st)) st.
Proof.
  destruct (flt 0%nat) as [e|] eqn:H0.
  { left. unfold favoriteCar, findById, storage_call. by rewrite H0. }
  destruct (users st !! userId) as [u|] eqn:Hu.
  - rewrite (favoriteCar_found _ _ _ _ _ _ Hu H0).
    destruct (toggle castObjectId (favorites u) carId) as [favs|e] eqn:Ht;
      [|by left].
    destruct (flt 1%nat); [by left|].
    right. by exists u, favs.
  - left. unfold favoriteCar, findById, storage_call. by rewrite H0, Hu.
Qed.

Lemma favoriteCar_NoDup castObjectId flt st carId userId :
  favorites_NoDup st →
  castObjectId carId = Some carId ∨ castObjectId carId = None →
  favorites_NoDup (favoriteCar castObjectId flt st carId userId).2.
Proof.
  intros Hinv Hcanon.
  destruct (favoriteCar_store castObjectId flt st carId userId)
    as [->|(u & favs & Hu & Ht & ->)]; [done|].
  intros id v. simpl. rewrite lookup_insert.
  destruct (decide (userId = id)) as [->|].
  - intros [= <-]. simpl. eapply NoDup_toggle; [|done..]. by eapply Hinv.
  - apply Hinv.
Qed.

(** C1. PATCH /favoriteCar/:carId on an existing user, when both storage
    calls complete, for a car id spelled as ids are rendered (a text that
    casts to itself): the favorite set loses [carId] if it was a member and
    gains it otherwise; the response returns the updated favorites and the
    collection holds them for that user, the rest of the user's record and
    the other users being untouched.  A car id that does not cast is
    answered 500 and nothing is stored.  For ids r1 ≠ r2 of that form,
    toggle(∅, r1) = {r1}, toggle({r1}, r1) = ∅ and
    toggle({r1}, r2) = {r1, r2}. *)
Theorem favoriteCar_toggles (castObjectId : string → option string)
    (flt : Faults) (st : Store) (carId userId : string) (u : User) :
  users st !! userId = Some u →
  flt 0%nat = None →
  flt 1%nat = None →
  (castObjectId carId = Some carId →
   ∃ favs u',
     (carId ∈ favorites u → favset favs = favset (favorites u) ∖ {[carId]})
     ∧ (carId ∉ favorites u → favset favs = favset (favorites u) ∪ {[carId]})
     ∧ (favoriteCar castObjectId flt st carId userId).1 =
         Responded
           (res_json (JObj [("message", JStr "Car favorited");
                            ("favorites", JArr (JStr <$> favs))]))
     ∧ users (favoriteCar castObjectId flt st carId userId).2 !! userId
       = Some u'
     ∧ favorites u' = favs
     ∧ name u' = name u ∧ email u' = email u ∧ password u' = password u
     ∧ (∀ other, other ≠ userId →
          users (favoriteCar castObjectId flt st carId userId).2 !! other
          = users st !! other))
  ∧ (castObjectId carId = None →
     carId ∉ favorites u →
     favoriteCar castObjectId flt st carId userId =
       (Responded
          (res_status_json 500 (message "Error updating favorite status")),
        st))
  ∧ (∀ r1 r2,
       castObjectId r1 = Some r1 →
       castObjectId r2 = Some r2 →
       r1 ≠ r2 →
       toggle castObjectId [] r1 = Ok [r1]
       ∧ toggle castObjectId [r1] r1 = Ok []
       ∧ toggle castObjectId [r1] r2 = Ok [r1; r2]).
Proof.
  intros Hu H0 H1. rewrite (favoriteCar_found _ _ _ _ _ _ Hu H0), H1.
  split_and!.
  - intros Hcast.
    destruct (toggle_canonical castObjectId (favorites u) carId Hcast)
      as (favs & -> & Hin).
    exists favs, (set_favorites favs u). cbn [fst snd]. split_and!; try done.
    + intros Hmem. apply set_eq. intros x. unfold favset.
      rewrite elem_of_difference, !elem_of_list_to_set, Hin,
        elem_of_singleton.
      tauto.
    + intros Hnin. apply set_eq. intros x. unfold favset.
      rewrite elem_of_union, !elem_of_list_to_set, Hin, elem_of_singleton.
      split; [tauto|].
      intros [Hx| ->]; [left|right]; split; try done.
      by intros ->.
    + apply lookup_insert_eq.
    + intros other Hne. by apply lookup_insert_ne.
  - intros Hcast Hnin.
    by destruct (toggle_no_cast castObjectId _ _ Hnin Hcast) as [e ->].
  - intros r1 r2 Hr1 Hr2 Hne. split_and!.
    + apply (toggle_cast castObjectId [] r1 r1); [apply not_elem_of_nil|done].
    + rewrite toggle_member by apply list_elem_of_here.
      by rewrite filter_cons_False, filter_nil by (by intros Hx).
    + apply (toggle_cast castObjectId [r1] r2 r2); [|done].
      by intros ->%list_elem_of_singleton.
Qed.

Lemma favoriteCar_toggles_witness :
  ∃ favs u',
    favset favs = favset [car1] ∖ {[car1]}
    ∧ (favoriteCar sample_castObjectId no_faults hex_store car1 "u3").1 =
        Responded (res_json (JObj [("message", JStr "Car favorited");
                                   ("favorites", JArr (JStr <$> favs))]))
    ∧ users (favoriteCar sample_castObjectId no_faults hex_store car1 "u3").2
        !! "u3" = Some u'
    ∧ favorites u' = favs
    ∧ password u' = "p3".
Proof.
  destruct (favoriteCar_toggles sample_castObjectId no_faults hex_store car1
              "u3" cy) as (Hcanon & _); [reflexivity..|].
  destruct (Hcanon eq_refl)
    as (favs & u' & Hrem & _ & Hres & Hst & Hfav & _ & _ & Hpw & _).
  exists favs, u'. split_and!; try done.
  apply Hrem. apply list_elem_of_here.
Defined.

(** C1, as first stated, fails on the code at two kinds of car id.  The
    text "r1" does not cast to an id: the request is answered 500 and the
    favorites stay empty, where toggle(∅, "r1") should be {"r1"}.  The
    upper-case spelling of a stored favorite is not found by [includes],
    so the car is not removed but stored a second time. *)
Lemma favoriteCar_toggles_counterexample :
  favoriteCar sample_castObjectId no_faults card_store "r1" "u1"
  = (Responded
       (res_status_json 500 (message "Error updating favorite status")),
     card_store)
  ∧ favorites <$> users card_store !! "u1" = Some []
  ∧ favset [] ≠ favset ["r1"]
  ∧ favorites
      <$> users (favoriteCar sample_castObjectId no_faults hex_store CAR1
                             "u3").2 !! "u3"
    = Some [car1; car1]
  ∧ favset [car1; car1] ≠ favset [car1] ∖ {[car1]}.
Proof.
  split_and!; try (vm_compute; reflexivity).
  - intros Heq. assert ("r1" ∈ favset ["r1"]) as Hin
      by (apply elem_of_list_to_set, list_elem_of_here).
    rewrite <-Heq in Hin. by apply elem_of_list_to_set, elem_of_nil in Hin.
  - intros Heq. assert (car1 ∈ favset [car1; car1]) as Hin
      by (apply elem_of_list_to_set, list_elem_of_here).
    rewrite Heq in Hin. apply elem_of_difference in Hin as [_ Hnot].
    apply Hnot. by apply elem_of_singleton.
Qed.

(** C2. Toggling twice does not always give back the favorite set: two
    PATCH requests with the upper-case spelling of a car id, for a user
    without favorites, leave that car among the favorites, stored twice.
    [includes] compares the text of the request with the stored
    renderings while [push] stores the id the text casts to. *)
Theorem toggle_twice_upper_case :
  (toggle sample_castObjectId [] CAR1
     ≫= λ favs, toggle sample_castObjectId favs CAR1) = Ok [car1; car1]
  ∧ favorites
      <$> users
            (favoriteCar sample_castObjectId no_faults
               (favoriteCar sample_castObjectId no_faults card_store CAR1
                            "u1").2 CAR1 "u1").2 !! "u1"
    = Some [car1; car1]
  ∧ favorites <$> users card_store !! "u1" = Some []
  ∧ favset [car1; car1] ≠ favset [].
Proof.
  split_and!; try (vm_compute; reflexivity).
  intros Heq. assert (car1 ∈ favset [car1; car1]) as Hin
    by (apply elem_of_list_to_set, list_elem_of_here).
  rewrite Heq in Hin. by apply elem_of_list_to_set, elem_of_nil in Hin.
Qed.

(** C3. The favorites can hold an id twice: after two toggle requests
    with the upper-case spelling of a car id, run for a user without
    favorites, the stored favorites list holds that car's id two times. *)
Theorem favorites_duplicate_upper_case :
  favorites
    <$> users (run_toggles sample_castObjectId card_store upper_case_calls)
          !! "u1"
  = Some [car1; car1]
  ∧ ¬ NoDup [car1; car1]
  ∧ ¬ favorites_NoDup
        (run_toggles sample_castObjectId card_store upper_case_calls).
Proof.
  assert (¬ NoDup [car1; car1]) as Hdup.
  { intros [Hnin _]%NoDup_cons. apply Hnin, list_elem_of_here. }
  split_and!; [vm_compute; reflexivity|done|].
  intros Hinv. apply Hdup.
  apply (Hinv "u1" (set_favorites [car1; car1] ann)).
  vm_compute. reflexivity.
Qed.



(** C5. When the write of the toggled favorites is rejected, the request
    answers 500 "Error updating favorite status" and the collection is
    exactly what it was before the request. *)
Theorem favoriteCar_save_failure (castObjectId : string → option string)
    (flt : Faults) (st : Store) (carId userId : string) (u : User)
    (e : Error) :
  users st !! userId = Some u →
  flt 0%nat = None →
  flt 1%nat = Some e →
  favoriteCar castObjectId flt st carId userId =
    (Responded (res_status_json 500 (message "Error updating favorite status")),
     st).
Proof.
  intros Hu H0 H1. rewrite (favoriteCar_found _ _ _ _ _ _ Hu H0), H1.
  by destruct (toggle castObjectId (favorites u) carId).
Qed.

Lemma favoriteCar_save_failure_witness :
  favoriteCar sample_castObjectId (fault_at 1 network_error) sample_store
              "r1" "u2" =
    (Responded (res_status_json 500 (message "Error updating favorite status")),
     sample_store).
Proof.
  apply (favoriteCar_save_failure _ _ _ _ _ bob network_error); reflexivity.
Defined.

(** The array itself need not come back: a removed id returns at the end. *)
Example toggle_twice_order :
  (toggle sample_castObjectId [car1; car2] car1
     ≫= λ favs, toggle sample_castObjectId favs car1) = Ok [car2; car1].
Proof. vm_compute. reflexivity. Qed.

(** ** Session checks *)

Section session_facts.
Context {Tag : Type} `{EqDecision Tag}.
Variable mac : string → Claims → Tag.
Implicit Types (env : Env) (st : Store) (token : Token Tag) (flt : Faults).

Lemma jwt_verify_ok env token id :
  verify mac token (JWT_SECRET env) (clock env) = inr id →
  jwt_verify mac env token = Ok id.
Proof. intros Hv. unfold jwt_verify. by rewrite Hv. Qed.

Lemma jwt_verify_throws env token why :
  verify mac token (JWT_SECRET env) (clock env) = inl why →
  ∃ e, jwt_verify mac env token = Throw e ∧ is_JsonWebTokenError e = true.
Proof.
  intros Hv. unfold jwt_verify. rewrite Hv.
  destruct why; eexists; (split; [reflexivity|]); done.
Qed.

Lemma verify_issue_fresh id key ttl now now' :
  now' < now + ttl →
  verify mac (issue mac id key ttl now) key now' = inr id.
Proof.
  intros Hlt. unfold verify, issue. simpl.
  rewrite decide_True by done. by rewrite decide_False by lia.
Qed.

(** The checks the handlers of /getUser and /favorites make themselves. *)
Lemma getUser_found env flt st token id u :
  verify mac token (JWT_SECRET env) (clock env) = inr id →
  users st !! id = Some u →
  flt 0%nat = None →
  getUser mac env flt st (Some token) =
    Responded (res_json (JObj [("currentUser", userDocJSON (hydrate id u))])).
Proof.
  intros Hv Hu H0. unfold getUser, findById, storage_call.
  rewrite (jwt_verify_ok _ _ _ Hv). simpl. by rewrite H0, Hu.
Qed.

Lemma getUser_no_token env flt st :
  getUser mac env flt st None =
    Responded (res_json (message "Not authenticated")).
Proof. reflexivity. Qed.

Lemma favoritesOf_no_token env flt st :
  favoritesOf mac env flt st None =
    Responded (res_json (message "JWT must be provided. Please log in.")).
Proof. reflexivity. Qed.

Lemma getUser_invalid env flt st token why :
  verify mac token (JWT_SECRET env) (clock env) = inl why →
  getUser mac env flt st (Some token) =
    Responded (res_status_json 401 (message "Invalid or expired token")).
Proof.
  intros Hv. unfold getUser.
  by destruct (jwt_verify_throws _ _ _ Hv) as (e & -> & _).
Qed.

Lemma getUser_gone env flt st token id :
  verify mac token (JWT_SECRET env) (clock env) = inr id →
  users st !! id = None →
  flt 0%nat = None →
  getUser mac env flt st (Some token) =
    Responded
      (res_status_json 404
         (message "The user belonging to this token no longer exists")).
Proof.
  intros Hv Hu H0. unfold getUser, findById, storage_call.
  rewrite (jwt_verify_ok _ _ _ Hv). simpl. by rewrite H0, Hu.
Qed.

Lemma favoritesOf_found env flt st token id u :
  verify mac token (JWT_SECRET env) (clock env) = inr id →
  users st !! id = Some u →
  flt 0%nat = None →
  flt 1%nat = None →
  favoritesOf mac env flt st (Some token) =
    Responded
      (res_json (JObj [("favorites", JArr (populate st (favorites u)))])).
Proof.
  intros Hv Hu H0 H1.
  unfold favoritesOf, findById, findById_populate, storage_call.
  rewrite (jwt_verify_ok _ _ _ Hv). simpl. rewrite H0, Hu. simpl.
  by rewrite H1, Hu.
Qed.

Lemma favoritesOf_invalid env flt st token why :
  verify mac token (JWT_SECRET env) (clock env) = inl why →
  favoritesOf mac env flt st (Some token) =
    Responded (res_status_json 401 (message "Invalid token")).
Proof.
  intros Hv. unfold favoritesOf.
  destruct (jwt_verify_throws _ _ _ Hv) as (e & -> & He). simpl.
  by rewrite He.
Qed.

Lemma favoritesOf_gone env flt st token id :
  verify mac token (JWT_SECRET env) (clock env) = inr id →
  users st !! id = None →
  flt 0%nat = None →
  favoritesOf mac env flt st (Some token) =
    Responded (res_status_json 401 (message "User not found")).
Proof.
  intros Hv Hu H0. unfold favoritesOf, findById, storage_call.
  rewrite (jwt_verify_ok _ _ _ Hv). simpl. by rewrite H0, Hu.
Qed.

Lemma sessionGate_admits env st carrier d :
  sessionGate mac env st carrier = inr d ↔
  ∃ token id u,
    carrier = Some token
    ∧ verify mac token (JWT_SECRET env) (clock env) = inr id
    ∧ users st !! id = Some u
    ∧ d = hydrate id u.
Proof.
  unfold sessionGate. split.
  - destruct carrier as [token|]; [|done].
    destruct (verify _ _ _ _) as [why|id] eqn:Hv; [done|].
    destruct (users st !! id) as [u|] eqn:Hu; [|done].
    intros [= <-]. by exists token, id, u.
  - intros (token & id & u & -> & -> & -> & ->). done.
Qed.
End session_facts.

(** C6. Behind the session gate, a request without a token is rejected
    with NoSession, one whose token fails verification (malformed, bad
    signature or expired) with InvalidSession, one whose verified token
    names an identity absent from the store with IdentityGone; in each case
    the outcome and the store do not depend on the handler, which is not
    run.  The gate admits a request exactly when its token verifies and
    names a stored identity, and only then is the handler run, with that
    identity attached. *)
Theorem gate_rejects_before_handler {Tag : Type} `{EqDecision Tag}
    (mac : string → Claims → Tag) (env : Env) (st : Store)
    (carrier : option (Token Tag)) (handler : Handler) :
  (carrier = None →
     protected mac env st carrier handler = (Rejected NoSession, st))
  ∧ (∀ token why,
       carrier = Some token →
       verify mac token (JWT_SECRET env) (clock env) = inl why →
       protected mac env st carrier handler = (Rejected (InvalidSession why), st))
  ∧ (∀ token id,
       carrier = Some token →
       verify mac token (JWT_SECRET env) (clock env) = inr id →
       users st !! id = None →
       protected mac env st carrier handler = (Rejected IdentityGone, st))
  ∧ (∀ token id u,
       carrier = Some token →
       verify mac token (JWT_SECRET env) (clock env) = inr id →
       users st !! id = Some u →
       protected mac env st carrier handler = handler (hydrate id u) st)
  ∧ ((∃ d, sessionGate mac env st carrier = inr d) ↔
     (∃ token id,
        carrier = Some token
        ∧ verify mac token (JWT_SECRET env) (clock env) = inr id
        ∧ is_Some (users st !! id)))
  ∧ (∀ token,
       verify mac token (JWT_SECRET env) (clock env) = inl Malformed
       ∨ verify mac token (JWT_SECRET env) (clock env) = inl BadSignature
       ∨ verify mac token (JWT_SECRET env) (clock env) = inl Expired
       ∨ ∃ id, verify mac token (JWT_SECRET env) (clock env) = inr id).
Proof.
  unfold protected, sessionGate. split_and!.
  - by intros ->.
  - by intros token why -> ->.
  - by intros token id -> -> ->.
  - by intros token id u -> -> ->.
  - split.
    + intros [d Hd]. destruct carrier as [token|]; [|done].
      destruct (verify _ _ _ _) as [why|id] eqn:Hv; [done|].
      exists token, id. split_and!; try done.
      by destruct (users st !! id).
    + intros (token & id & -> & -> & [u ->]). by eexists.
  - intros token. destruct (verify _ _ _ _) as [[]|id]; eauto.
Qed.

Lemma gate_rejects_before_handler_witness :
  protected sample_mac sample_env sample_store
    (Some (issue sample_mac "u1" "guess" 3600 1000))
    (λ _ st, favoriteCar sample_castObjectId no_faults st "r1" "u2")
  = (Rejected (InvalidSession BadSignature), sample_store)
  ∧ protected sample_mac sample_env sample_store
      (Some (issue sample_mac "u1" "s3cret" 3600 (-3000)))
      (λ _ st, favoriteCar sample_castObjectId no_faults st "r1" "u2")
    = (Rejected (InvalidSession Expired), sample_store)
  ∧ protected sample_mac sample_env sample_store
      (Some (issue sample_mac "u9" "s3cret" 3600 1000))
      (λ _ st, favoriteCar sample_castObjectId no_faults st "r1" "u2")
    = (Rejected IdentityGone, sample_store).
Proof.
  split_and!.
  - eapply (gate_rejects_before_handler sample_mac); reflexivity.
  - eapply (gate_rejects_before_handler sample_mac); reflexivity.
  - eapply (gate_rejects_before_handler sample_mac); reflexivity.
Defined.

(** C7. A token issued for an identity id under a secret key with a
    positive ttl verifies under the same key to that id, at the instant of
    issue and at every instant before the expiry. *)
Theorem verify_issue {Tag : Type} `{EqDecision Tag}
    (mac : string → Claims → Tag) (id key : string) (ttl now now' : Z) :
  0 < ttl →
  now ≤ now' < now + ttl →
  verify mac (issue mac id key ttl now) key now = inr id
  ∧ verify mac (issue mac id key ttl now) key now' = inr id.
Proof.
  intros Httl [Hle Hlt]. split; apply verify_issue_fresh; lia.
Qed.

Lemma verify_issue_witness :
  verify sample_mac (issue sample_mac "u1" "s3cret" 3600 1000) "s3cret" 1000
    = inr "u1"
  ∧ verify sample_mac (issue sample_mac "u1" "s3cret" 3600 1000) "s3cret" 4599
    = inr "u1".
Proof.
  apply (verify_issue sample_mac "u1" "s3cret" 3600 1000 4599); lia.
Defined.

(** ** Failure paths without a response *)

Lemma sellACar_other_error flt st newId fields files e :
  flt 0%nat = Some e →
  err_name e ≠ "ValidationError" →
  sellACar flt st newId fields (Some files) = (NoResponse, st).
Proof.
  intros H0 Hname. unfold sellACar, Car_create, storage_call. simpl.
  rewrite H0. simpl. by rewrite bool_decide_eq_false_2.
Qed.

Lemma sellACar_without_files flt st newId fields :
  sellACar flt st newId fields None = (NoResponse, st).
Proof. reflexivity. Qed.

Lemma signup_other_error flt st newId b e :
  flt 0%nat = Some e →
  err_name e ≠ "ValidationError" →
  err_code e ≠ Some 11000 →
  signup flt st newId b = (NoResponse, st).
Proof.
  intros H0 Hname Hcode. unfold signup, findOne_email, storage_call.
  rewrite H0. simpl. by rewrite !bool_decide_eq_false_2.
Qed.

(** C8. Not every failure path answers the caller.  When the storage call
    of POST /sellACar or of POST /signup is rejected with an error that is
    neither a ValidationError nor (for signup) a duplicate key, or when
    POST /sellACar arrives without uploaded files, the [catch] block sends
    nothing and the request stays without a response; the rejected lookup
    of POST /login, which has no [catch], leaves the handler's promise
    rejected. *)
Theorem unanswered_failures (st : Store) (newId : string) (fields : Car)
    (files : list string) (b : SignupBody) :
  sellACar (fault_at 0 network_error) st newId fields (Some files)
    = (NoResponse, st)
  ∧ sellACar no_faults st newId fields None = (NoResponse, st)
  ∧ signup (fault_at 0 network_error) st newId b = (NoResponse, st)
  ∧ login sample_mac sample_env (fault_at 0 network_error) st
      (Some "a@x.com") (Some "p1") = (Unhandled network_error, None).
Proof.
  split_and!.
  - by apply (sellACar_other_error _ _ _ _ _ network_error).
  - apply sellACar_without_files.
  - by apply (signup_other_error _ _ _ _ network_error).
  - reflexivity.
Qed.

(** ** The credential field in the responses *)

Lemma userDocJSON_password id u :
  jfield "password" (userDocJSON (hydrate id u)) = Some (JStr (password u)).
Proof. reflexivity. Qed.

Lemma userDocJSON_select_minus_password d :
  jfield "password" (userDocJSON (select_minus_password d)) = None.
Proof. unfold userDocJSON. simpl. by destruct (doc_passwordConfirm d). Qed.

(** C9. The fetch of GET /getUser has no exclusion of the credential, so
    its response carries the stored password.  The exclusion is on the
    first fetch of GET /favorites; the re-fetch of that handler does not
    exclude it, and its response carries the populated favorites only. *)
Theorem getUser_exposes_password :
  getUser sample_mac sample_env no_faults sample_store
    (Some (issue sample_mac "u2" "s3cret" 3600 1000))
  = Responded
      (res_json (JObj [("currentUser", userDocJSON (hydrate "u2" bob))]))
  ∧ jfield "password" (userDocJSON (hydrate "u2" bob)) = Some (JStr "p2")
  ∧ jfield "password" (userDocJSON (select_minus_password (hydrate "u2" bob)))
    = None
  ∧ favoritesOf sample_mac sample_env no_faults sample_store
      (Some (issue sample_mac "u2" "s3cret" 3600 1000))
    = Responded (res_json (JObj [("favorites", JArr [carJSON "r1" beetle])])).
Proof.
  split_and!.
  - by apply getUser_found.
  - apply userDocJSON_password.
  - apply userDocJSON_select_minus_password.
  - rewrite (favoritesOf_found sample_mac _ _ _ _ "u2" bob) by done.
    reflexivity.
Qed.

(** ** Whose favorites a toggle request changes *)

(** C10. Behind the gate, PATCH /favoriteCar/:carId reads and writes the
    favorites of the user named by [userId] in the body, whatever identity
    the session token names: two admitted requests with the same body and
    [carId] give the same response and the same collection, those of the
    handler run without the gate; and whenever the toggle of that user's
    favorites yields a list, an admitted request answers with that list
    and stores it as the favorites of that user, whoever is logged in. *)
Theorem favoriteCar_ignores_session {Tag : Type} `{EqDecision Tag}
    (mac : string → Claims → Tag) (castObjectId : string → option string)
    (env : Env) (flt : Faults) (st : Store)
    (token1 token2 : Token Tag) (d1 d2 : UserDoc) (carId userId : string) :
  sessionGate mac env st (Some token1) = inr d1 →
  sessionGate mac env st (Some token2) = inr d2 →
  favoriteCar_route mac castObjectId env flt st (Some token1) carId userId
    = favoriteCar_route mac castObjectId env flt st (Some token2) carId userId
  ∧ favoriteCar_route mac castObjectId env flt st (Some token1) carId userId
    = favoriteCar castObjectId flt st carId userId
  ∧ (∀ u favs,
       users st !! userId = Some u →
       toggle castObjectId (favorites u) carId = Ok favs →
       flt 0%nat = None →
       flt 1%nat = None →
       (favoriteCar_route mac castObjectId env flt st (Some token1) carId
                          userId).1
       = Responded (res_json (JObj [("message", JStr "Car favorited");
                                    ("favorites", JArr (JStr <$> favs))]))
       ∧ ∃ u',
           users (favoriteCar_route mac castObjectId env flt st (Some token1)
                                    carId userId).2 !! userId = Some u'
           ∧ favorites u' = favs).
Proof.
  intros Hg1 Hg2. unfold favoriteCar_route, protected. rewrite Hg1, Hg2.
  split_and!; try done.
  intros u favs Hu Ht H0 H1.
  rewrite (favoriteCar_found _ _ _ _ _ _ Hu H0), Ht, H1. cbn [fst snd].
  split; [done|]. exists (set_favorites favs u). split; [|done].
  apply lookup_insert_eq.
Qed.

Lemma favoriteCar_ignores_session_witness :
  favoriteCar_route sample_mac sample_castObjectId sample_env no_faults
    hex_store (Some (issue sample_mac "u1" "s3cret" 3600 1000)) car2 "u3"
  = favoriteCar_route sample_mac sample_castObjectId sample_env no_faults
      hex_store (Some (issue sample_mac "u3" "s3cret" 3600 1000)) car2 "u3"
  ∧ ∃ u',
      users (favoriteCar_route sample_mac sample_castObjectId sample_env
               no_faults hex_store
               (Some (issue sample_mac "u1" "s3cret" 3600 1000)) car2 "u3").2
        !! "u3" = Some u'
      ∧ favorites u' = [car1; car2].
Proof.
  destruct (favoriteCar_ignores_session sample_mac sample_castObjectId
              sample_env no_faults hex_store
              (issue sample_mac "u1" "s3cret" 3600 1000)
              (issue sample_mac "u3" "s3cret" 3600 1000)
              (hydrate "u1" ann) (hydrate "u3" cy) car2 "u3")
    as (Hsame & _ & Hst); [reflexivity..|].
  split; [exact Hsame|].
  apply (Hst cy [car1; car2]); reflexivity.
Defined.

(** ** The scenario of section 8 *)

Example scenario_session : ann_session = Some (issue sample_mac "u1" "s3cret" 3600 1000).
Proof. vm_compute. reflexivity. Qed.

Example scenario_favorites :
  favorites_route sample_mac sample_env no_faults after_first_patch ann_session
    = (Responded (res_json (JObj [("favorites", JArr [carJSON car1 beetle])])),
       after_first_patch)
  ∧ favorites_route sample_mac sample_env no_faults after_second_patch
      ann_session
    = (Responded (res_json (JObj [("favorites", JArr [])])), after_second_patch).
Proof. split; vm_compute; reflexivity. Qed.


(** * Further properties of the handlers *)

(** ** More on the toggle *)

Lemma filter_other_idemp (favs : list string) (r : string) :
  filter (λ id, id ≠ r) (filter (λ id, id ≠ r) favs)
  = filter (λ id, id ≠ r) favs.
Proof.
  induction favs as [|x favs IH]; [done|].
  rewrite (filter_cons _ x favs).
  destruct (decide (x ≠ r)) as [Hx|Hx]; [|done].
  by rewrite filter_cons_True, IH.
Qed.

Lemma filter_other_snoc (favs : list string) (r : string) :
  filter (λ id, id ≠ r) (favs ++ [r]) = filter (λ id, id ≠ r) favs.
Proof.
  rewrite filter_app, filter_cons_False, filter_nil by (by intros Hne).
  apply app_nil_r.
Qed.

(** X1. For two car ids spelled as ids are rendered, toggling them in
    either order succeeds and gives the same favorite set. *)
Theorem toggle_commutes (castObjectId : string → option string)
    (S : list string) (a b : string) :
  castObjectId a = Some a →
  castObjectId b = Some b →
  ∃ Sa Sab Sb Sba,
    toggle castObjectId S a = Ok Sa ∧ toggle castObjectId Sa b = Ok Sab
    ∧ toggle castObjectId S b = Ok Sb ∧ toggle castObjectId Sb a = Ok Sba
    ∧ favset Sab = favset Sba.
Proof.
  intros Ha Hb.
  destruct (toggle_canonical castObjectId S a Ha) as (Sa & HSa & Hina).
  destruct (toggle_canonical castObjectId Sa b Hb) as (Sab & HSab & Hinab).
  destruct (toggle_canonical castObjectId S b Hb) as (Sb & HSb & Hinb).
  destruct (toggle_canonical castObjectId Sb a Ha) as (Sba & HSba & Hinba).
  exists Sa, Sab, Sb, Sba. split_and!; [done..|].
  apply set_eq. intros x. unfold favset.
  rewrite !elem_of_list_to_set, Hinab, Hinba, !Hina, !Hinb.
  destruct (decide (x = a)) as [->|Hxa].
  - destruct (decide (a = b)) as [->|Hab]; [tauto|].
    destruct (decide (a ∈ S)); intuition congruence.
  - destruct (decide (x = b)) as [->|Hxb]; [|tauto].
    destruct (decide (b ∈ S)); intuition congruence.
Qed.

Lemma toggle_commutes_witness :
  ∃ Sa Sab Sb Sba,
    toggle sample_castObjectId [car1] car1 = Ok Sa
    ∧ toggle sample_castObjectId Sa car2 = Ok Sab
    ∧ toggle sample_castObjectId [car1] car2 = Ok Sb
    ∧ toggle sample_castObjectId Sb car1 = Ok Sba
    ∧ favset Sab = favset Sba.
Proof.
  apply (toggle_commutes sample_castObjectId [car1] car1 car2); reflexivity.
Defined.

(** X2. A toggle with a car id [r] spelled as ids are rendered succeeds,
    flips the membership of [r] and leaves every other id in place: the
    other ids keep their order and their number of occurrences, and every
    copy of [r] goes when [r] was present. *)
Theorem toggle_keeps_others (castObjectId : string → option string)
    (S : list string) (r : string) :
  castObjectId r = Some r →
  ∃ S',
    toggle castObjectId S r = Ok S'
    ∧ filter (λ id, id ≠ r) S' = filter (λ id, id ≠ r) S
    ∧ (r ∈ S' ↔ r ∉ S).
Proof.
  intros Hcast. destruct (decide (r ∈ S)) as [Hin|Hnin].
  - eexists. split; [by apply toggle_member|]. split.
    + apply filter_other_idemp.
    + rewrite list_elem_of_filter. tauto.
  - eexists. split; [by apply toggle_cast|]. split.
    + apply filter_other_snoc.
    + rewrite elem_of_app, list_elem_of_singleton. tauto.
Qed.

Lemma toggle_keeps_others_witness :
  ∃ S',
    toggle sample_castObjectId [car2; car1; car2] car2 = Ok S'
    ∧ filter (λ id, id ≠ car2) S' = filter (λ id, id ≠ car2) [car2; car1; car2]
    ∧ (car2 ∈ S' ↔ car2 ∉ [car2; car1; car2]).
Proof.
  apply (toggle_keeps_others sample_castObjectId [car2; car1; car2] car2).
  reflexivity.
Defined.

(** X27. Two PATCH requests in a row for the same user and the same car
    id, spelled as ids are rendered, all storage calls completing: the
    first flips the stored membership of the car, and after the second the
    stored favorite set is the one before the first request. *)
Theorem favoriteCar_twice (castObjectId : string → option string)
    (flt1 flt2 : Faults) (st : Store) (carId userId : string) (u : User) :
  castObjectId carId = Some carId →
  users st !! userId = Some u →
  flt1 0%nat = None → flt1 1%nat = None →
  flt2 0%nat = None → flt2 1%nat = None →
  ∃ u1 u',
    users (favoriteCar castObjectId flt1 st carId userId).2 !! userId
    = Some u1
    ∧ (carId ∈ favorites u1 ↔ carId ∉ favorites u)
    ∧ users (favoriteCar castObjectId flt2
               (favoriteCar castObjectId flt1 st carId userId).2
               carId userId).2 !! userId = Some u'
    ∧ favset (favorites u') = favset (favorites u).
Proof.
  intros Hcast Hu H0 H1 H0' H1'.
  destruct (toggle_canonical_twice castObjectId (favorites u) carId Hcast)
    as (S' & S'' & HS' & HS'' & Hset).
  destruct (toggle_canonical castObjectId (favorites u) carId Hcast)
    as (S1 & HS1 & Hin1).
  rewrite HS' in HS1. injection HS1 as <-.
  rewrite (favoriteCar_found _ flt1 _ _ _ _ Hu H0), HS', H1. cbn [snd].
  exists (set_favorites S' u). eexists. split; [apply lookup_insert_eq|].
  split.
  { cbn [favorites set_favorites]. rewrite Hin1.
    destruct (decide (carId ∈ favorites u)); tauto. }
  erewrite (favoriteCar_found _ flt2); [|apply lookup_insert_eq|done].
  cbn [favorites set_favorites]. rewrite HS'', H1'. cbn [snd users set_users].
  rewrite lookup_insert_eq. done.
Qed.

Lemma favoriteCar_twice_witness :
  ∃ u1 u',
    users (favoriteCar sample_castObjectId no_faults hex_store car1 "u3").2
      !! "u3" = Some u1
    ∧ (car1 ∈ favorites u1 ↔ car1 ∉ favorites cy)
    ∧ users (favoriteCar sample_castObjectId no_faults
               (favoriteCar sample_castObjectId no_faults hex_store car1
                            "u3").2 car1 "u3").2 !! "u3" = Some u'
    ∧ favset (favorites u') = favset (favorites cy).
Proof.
  apply (favoriteCar_twice sample_castObjectId no_faults no_faults hex_store
           car1 "u3" cy); reflexivity.
Defined.


(** ** The favorites listing *)

Lemma carJSON_id_inj id1 id2 c1 c2 :
  carJSON id1 c1 = carJSON id2 c2 → id1 = id2.
Proof. unfold carJSON. simpl. by intros [= ->]. Qed.

Lemma elem_of_populate st favs j :
  j ∈ populate st favs ↔
  ∃ cid c, cid ∈ favs ∧ cars st !! cid = Some c ∧ j = carJSON cid c.
Proof.
  unfold populate. rewrite list_elem_of_omap. split.
  - intros (cid & Hin & Hj). destruct (cars st !! cid) as [c|] eqn:Hc; [|done].
    injection Hj as <-. by exists cid, c.
  - intros (cid & c & Hin & Hc & ->). exists cid. by rewrite Hc.
Qed.

Lemma length_populate st favs :
  length (populate st favs)
  = length (filter (λ cid, is_Some (cars st !! cid)) favs).
Proof.
  unfold populate. induction favs as [|cid favs IH]; [done|].
  destruct (cars st !! cid) as [c|] eqn:Hc.
  - rewrite filter_cons_True by (by rewrite Hc). simpl. rewrite Hc. simpl.
    f_equal. apply IH.
  - rewrite filter_cons_False by (rewrite Hc; by intros [? ?]). simpl.
    rewrite Hc. apply IH.
Qed.

Lemma populate_cars st st' favs :
  cars st' = cars st → populate st' favs = populate st favs.
Proof. intros Hc. unfold populate. by rewrite Hc. Qed.

Lemma populate_snoc st favs cid :
  populate st (favs ++ [cid])
  = populate st favs ++ match cars st !! cid with
                        | Some c => [carJSON cid c]
                        | None => []
                        end.
Proof.
  unfold populate. rewrite omap_app. simpl. by destruct (cars st !! cid).
Qed.

(** X4. For a session whose token verifies and names a stored user,
    GET /favorites answers with the documents of exactly those favorite
    ids that have a car document: an id without one is left out without an
    error, and nothing else is listed. *)
Theorem favorites_lists_stored_cars {Tag : Type} `{EqDecision Tag}
    (mac : string → Claims → Tag) (env : Env) (flt : Faults) (st : Store)
    (token : Token Tag) (id : string) (u : User) :
  verify mac token (JWT_SECRET env) (clock env) = inr id →
  users st !! id = Some u →
  flt 0%nat = None →
  flt 1%nat = None →
  ∃ listed,
    favoritesOf mac env flt st (Some token)
      = Responded (res_json (JObj [("favorites", JArr listed)]))
    ∧ (∀ j, j ∈ listed ↔
            ∃ cid c, cid ∈ favorites u ∧ cars st !! cid = Some c
                     ∧ j = carJSON cid c)
    ∧ length listed
      = length (filter (λ cid, is_Some (cars st !! cid)) (favorites u)).
Proof.
  intros Hv Hu H0 H1. exists (populate st (favorites u)). split_and!.
  - by eapply favoritesOf_found.
  - apply elem_of_populate.
  - apply length_populate.
Qed.

Lemma favorites_lists_stored_cars_witness :
  ∃ listed,
    favoritesOf sample_mac sample_env no_faults sample_store
      (Some (issue sample_mac "u2" "s3cret" 3600 1000))
      = Responded (res_json (JObj [("favorites", JArr listed)]))
    ∧ (∀ j, j ∈ listed ↔
            ∃ cid c, cid ∈ favorites bob ∧ cars sample_store !! cid = Some c
                     ∧ j = carJSON cid c)
    ∧ length listed
      = length (filter (λ cid, is_Some (cars sample_store !! cid))
                       (favorites bob)).
Proof.
  apply (favorites_lists_stored_cars sample_mac sample_env no_faults
           sample_store _ "u2" bob); reflexivity.
Defined.

(** X5. Adding a favorite and then listing: after a PATCH whose car id
    is not among the user's favorites and casts to an id, that id is
    stored at the end of the favorites, and GET /favorites in that user's
    session answers with the former listing followed by the document of
    that id; when no car document has the id, it is stored all the same
    and the listing is the former one. *)
Theorem favorite_then_list {Tag : Type} `{EqDecision Tag}
    (mac : string → Claims → Tag) (castObjectId : string → option string)
    (env : Env) (flt flt' : Faults) (st : Store) (token : Token Tag)
    (carId userId id : string) (u : User) :
  verify mac token (JWT_SECRET env) (clock env) = inr userId →
  users st !! userId = Some u →
  carId ∉ favorites u →
  castObjectId carId = Some id →
  flt 0%nat = None → flt 1%nat = None →
  flt' 0%nat = None → flt' 1%nat = None →
  (∃ u',
     users (favoriteCar castObjectId flt st carId userId).2 !! userId
     = Some u'
     ∧ favorites u' = favorites u ++ [id])
  ∧ favoritesOf mac env flt'
      (favoriteCar castObjectId flt st carId userId).2 (Some token)
    = Responded
        (res_json
           (JObj [("favorites",
                   JArr (populate st (favorites u)
                         ++ match cars st !! id with
                            | Some c => [carJSON id c]
                            | None => []
                            end))])).
Proof.
  intros Hv Hu Hnin Hcast H0 H1 H0' H1'.
  rewrite (favoriteCar_found _ _ _ _ _ _ Hu H0),
    (toggle_cast _ _ _ _ Hnin Hcast), H1. cbn [snd].
  split.
  - exists (set_favorites (favorites u ++ [id]) u). split; [|done].
    apply lookup_insert_eq.
  - erewrite favoritesOf_found; [|done|apply lookup_insert_eq|done..].
    cbn [favorites set_favorites].
    by rewrite (populate_cars st), populate_snoc.
Qed.

Lemma favorite_then_list_witness :
  favoritesOf sample_mac sample_env no_faults
    (favoriteCar sample_castObjectId no_faults hex_store CAR1 "u1").2
    (Some (issue sample_mac "u1" "s3cret" 3600 1000))
  = Responded (res_json (JObj [("favorites", JArr [carJSON car1 beetle])])).
Proof.
  refine (proj2 (favorite_then_list sample_mac sample_castObjectId sample_env
                   no_faults no_faults hex_store
                   (issue sample_mac "u1" "s3cret" 3600 1000)
                   CAR1 "u1" car1 ann _ _ _ _ _ _ _ _));
    [reflexivity|reflexivity|apply not_elem_of_nil|reflexivity..].
Defined.

(** X6. Removing a favorite and then listing: after a PATCH for a
    [carId] that was a favorite, GET /favorites in that user's session
    answers with the documents of the remaining favorites and lists no
    document with that id. *)
Theorem unfavorite_then_list {Tag : Type} `{EqDecision Tag}
    (mac : string → Claims → Tag) (castObjectId : string → option string)
    (env : Env) (flt flt' : Faults)
    (st : Store) (token : Token Tag) (carId userId : string) (u : User) :
  verify mac token (JWT_SECRET env) (clock env) = inr userId →
  users st !! userId = Some u →
  carId ∈ favorites u →
  flt 0%nat = None → flt 1%nat = None →
  flt' 0%nat = None → flt' 1%nat = None →
  favoritesOf mac env flt'
    (favoriteCar castObjectId flt st carId userId).2 (Some token)
    = Responded
        (res_json
           (JObj [("favorites",
                   JArr (populate st
                           (filter (λ id, id ≠ carId) (favorites u))))]))
  ∧ ∀ c, carJSON carId c
         ∉ populate st (filter (λ id, id ≠ carId) (favorites u)).
Proof.
  intros Hv Hu Hin H0 H1 H0' H1'.
  rewrite (favoriteCar_found _ _ _ _ _ _ Hu H0), (toggle_member _ _ _ Hin),
    H1. cbn [snd].
  split.
  - erewrite favoritesOf_found; [|done|apply lookup_insert_eq|done..].
    cbn [favorites set_favorites]. by rewrite (populate_cars st).
  - intros c (cid & c' & Hcid & _ & Heq)%elem_of_populate.
    apply carJSON_id_inj in Heq as <-.
    by apply list_elem_of_filter in Hcid as [Hne _].
Qed.

Lemma unfavorite_then_list_witness :
  favoritesOf sample_mac sample_env no_faults
    (favoriteCar sample_castObjectId no_faults sample_store "r1" "u2").2
    (Some (issue sample_mac "u2" "s3cret" 3600 1000))
  = Responded (res_json (JObj [("favorites", JArr [])])).
Proof.
  refine (proj1 (unfavorite_then_list sample_mac sample_castObjectId
                   sample_env no_faults
                   no_faults sample_store
                   (issue sample_mac "u2" "s3cret" 3600 1000)
                   "r1" "u2" bob _ _ _ _ _ _ _));
    [reflexivity|reflexivity|apply list_elem_of_here|reflexivity..].
Defined.

(** ** What the session handlers give away, and to whom *)

Lemma storage_call_Ok {A} flt k (a b : A) :
  storage_call flt k a = Ok b → flt k = None ∧ a = b.
Proof. unfold storage_call. destruct (flt k); [done|]. by intros [= ->]. Qed.

Lemma jfield_message key m :
  key ≠ "message" → jfield key (message m) = None.
Proof.
  intros Hne. unfold jfield, message. simpl.
  by rewrite decide_False by (simpl; congruence).
Qed.

(** The response in [Hget] is a bare message, so it has no field [Hrec]
    speaks of. *)
Ltac no_such_field Hget Hrec :=
  injection Hget as <-;
  unfold res_json, res_status_json in Hrec; cbn [body] in Hrec;
  by rewrite jfield_message in Hrec.

(** X7. GET /getUser hands out a user record only for a token that
    verifies and names a stored user, and then it is that user's record,
    with status 200: whatever the cookie and whichever storage call fails,
    no other path of the handler answers with a [currentUser]. *)
Theorem getUser_record_needs_session {Tag : Type} `{EqDecision Tag}
    (mac : string → Claims → Tag) (env : Env) (flt : Faults) (st : Store)
    (carrier : option (Token Tag)) (r : Response) (record : JSON) :
  getUser mac env flt st carrier = Responded r →
  jfield "currentUser" (body r) = Some record →
  ∃ token id u,
    carrier = Some token
    ∧ verify mac token (JWT_SECRET env) (clock env) = inr id
    ∧ users st !! id = Some u
    ∧ record = userDocJSON (hydrate id u)
    ∧ status r = 200.
Proof.
  intros Hget Hrec. destruct carrier as [token|].
  - destruct (verify mac token (JWT_SECRET env) (clock env)) as [why|id] eqn:Hv.
    + rewrite (getUser_invalid _ _ _ _ _ _ Hv) in Hget.
      no_such_field Hget Hrec.
    + unfold getUser in Hget. rewrite (jwt_verify_ok _ _ _ _ Hv) in Hget.
      simpl in Hget. unfold findById, storage_call in Hget.
      destruct (flt 0%nat); simpl in Hget;
        [no_such_field Hget Hrec|].
      destruct (users st !! id) as [u|] eqn:Hu; simpl in Hget;
        [|no_such_field Hget Hrec].
      injection Hget as <-. exists token, id, u. split_and!; try done.
      by injection Hrec as <-.
  - no_such_field Hget Hrec.
Qed.

Lemma getUser_record_needs_session_witness :
  ∃ token id u,
    Some (issue sample_mac "u2" "s3cret" 3600 1000) = Some token
    ∧ verify sample_mac token (JWT_SECRET sample_env) (clock sample_env)
      = inr id
    ∧ users sample_store !! id = Some u
    ∧ userDocJSON (hydrate "u2" bob) = userDocJSON (hydrate id u)
    ∧ status (res_json (JObj [("currentUser", userDocJSON (hydrate "u2" bob))]))
      = 200.
Proof.
  apply (getUser_record_needs_session sample_mac sample_env no_faults
           sample_store (Some (issue sample_mac "u2" "s3cret" 3600 1000))
           (res_json (JObj [("currentUser", userDocJSON (hydrate "u2" bob))])));
    reflexivity.
Defined.

(** X8. GET /favorites hands out a favorites listing only for a token
    that verifies and names a stored user, and then it is the listing of
    that user's favorites: no other path of the handler answers with a
    [favorites] field. *)
Theorem favoritesOf_listing_needs_session {Tag : Type} `{EqDecision Tag}
    (mac : string → Claims → Tag) (env : Env) (flt : Faults) (st : Store)
    (carrier : option (Token Tag)) (r : Response) (listing : JSON) :
  favoritesOf mac env flt st carrier = Responded r →
  jfield "favorites" (body r) = Some listing →
  ∃ token id u,
    carrier = Some token
    ∧ verify mac token (JWT_SECRET env) (clock env) = inr id
    ∧ users st !! id = Some u
    ∧ listing = JArr (populate st (favorites u))
    ∧ status r = 200.
Proof.
  intros Hget Hrec. destruct carrier as [token|].
  - destruct (verify mac token (JWT_SECRET env) (clock env)) as [why|id] eqn:Hv.
    + rewrite (favoritesOf_invalid _ _ _ _ _ _ Hv) in Hget.
      no_such_field Hget Hrec.
    + unfold favoritesOf in Hget. rewrite (jwt_verify_ok _ _ _ _ Hv) in Hget.
      simpl in Hget. unfold findById, findById_populate, storage_call in Hget.
      destruct (flt 0%nat) as [e0|]; simpl in Hget.
      { destruct (is_JsonWebTokenError e0); no_such_field Hget Hrec. }
      destruct (users st !! id) as [u|] eqn:Hu; simpl in Hget;
        [|no_such_field Hget Hrec].
      destruct (flt 1%nat) as [e1|]; simpl in Hget.
      { destruct (is_JsonWebTokenError e1); no_such_field Hget Hrec. }
      rewrite Hu in Hget. simpl in Hget. injection Hget as <-.
      exists token, id, u. split_and!; try done.
      by injection Hrec as <-.
  - no_such_field Hget Hrec.
Qed.

Lemma favoritesOf_listing_needs_session_witness :
  ∃ token id u,
    Some (issue sample_mac "u2" "s3cret" 3600 1000) = Some token
    ∧ verify sample_mac token (JWT_SECRET sample_env) (clock sample_env)
      = inr id
    ∧ users sample_store !! id = Some u
    ∧ JArr [carJSON "r1" beetle] = JArr (populate sample_store (favorites u))
    ∧ status (res_json (JObj [("favorites", JArr [carJSON "r1" beetle])]))
      = 200.
Proof.
  apply (favoritesOf_listing_needs_session sample_mac sample_env no_faults
           sample_store (Some (issue sample_mac "u2" "s3cret" 3600 1000))
           (res_json (JObj [("favorites", JArr [carJSON "r1" beetle])])));
    reflexivity.
Defined.

(** ** Signup and login *)

Section accounts.
Context {Tag : Type} `{EqDecision Tag}.
Variable mac : string → Claims → Tag.
Implicit Types (env : Env) (st : Store) (flt : Faults) (b : SignupBody).



Lemma findOne_email_present flt k st e id u :
  flt k = None →
  users st !! id = Some u →
  email u = lowercase e →
  ∃ d, findOne_email flt k st e = Ok (Some d).
Proof.
  intros Hk Hu He. unfold findOne_email, storage_call. rewrite Hk.
  destruct (list_find _ _) as [hit|] eqn:Hlf; [by eexists|].
  apply list_find_None in Hlf.
  apply elem_of_map_to_list in Hu.
  by eapply Forall_forall in Hlf; [|exact Hu].
Qed.



End accounts.







(** X12. POST /signup with the email of a stored user, in whatever
    letter case it is typed, answers "There is already an account with
    that email!" and writes nothing, whatever the rest of the body. *)
Theorem signup_existing_email (flt : Faults) (st : Store) (newId : string)
    (b : SignupBody) (id : string) (u : User) :
  users st !! id = Some u →
  email u = lowercase (body_email b) →
  flt 0%nat = None →
  signup flt st newId b
  = (Responded
       (res_json (message "There is already an account with that email!")),
     st).
Proof.
  intros Hu He H0. unfold signup.
  by destruct (findOne_email_present flt 0 st _ id u H0 Hu He) as [d ->].
Qed.

Lemma signup_existing_email_witness :
  signup no_faults sample_store "u3"
         (mkSignupBody "annie" "A@x.com" "pw" None)
  = (Responded
       (res_json (message "There is already an account with that email!")),
     sample_store).
Proof.
  apply (signup_existing_email _ _ _ _ "u1" ann); reflexivity.
Defined.





(** ** The car listings *)

Lemma filter_keep_all {A} (l : list A) :
  filter (λ _, true = true) l = l.
Proof.
  induction l as [|x l IH]; [done|]. by rewrite filter_cons_True, IH.
Qed.

Lemma getCars_ok flt st :
  flt 0%nat = None →
  getCars flt st
  = Responded (res_json (JObj [("cars", carsJSON (map_to_list (cars st)))])).
Proof.
  intros H0. unfold getCars, Car_find, storage_call.
  by rewrite H0, filter_keep_all.
Qed.

Lemma elem_of_carsJSON_list (found : list (string * Car)) j :
  j ∈ (λ kv, carJSON kv.1 kv.2) <$> found ↔
  ∃ id c, (id, c) ∈ found ∧ j = carJSON id c.
Proof.
  rewrite list_elem_of_fmap. split.
  - intros ([id c] & -> & Hin). by exists id, c.
  - intros (id & c & Hin & ->). by exists (id, c).
Qed.

(** X15. GET /cars answers with one entry per stored car: every stored
    car is listed, every entry is a stored car, and there are as many
    entries as stored cars.  The handler has no [catch]: a rejected
    [Car.find] leaves its promise rejected and the request unanswered. *)
Theorem getCars_lists_every_car (flt : Faults) (st : Store) :
  (flt 0%nat = None →
   ∃ listed,
     getCars flt st = Responded (res_json (JObj [("cars", JArr listed)]))
     ∧ length listed = size (cars st)
     ∧ (∀ id c, cars st !! id = Some c → carJSON id c ∈ listed)
     ∧ (∀ j, j ∈ listed → ∃ id c, cars st !! id = Some c ∧ j = carJSON id c))
  ∧ (∀ e, flt 0%nat = Some e → getCars flt st = Unhandled e).
Proof.
  split.
  - intros H0. eexists. split; [by apply getCars_ok|]. split_and!.
    + by rewrite length_fmap, length_map_to_list.
    + intros id c Hc. apply elem_of_carsJSON_list. exists id, c.
      by rewrite elem_of_map_to_list.
    + intros j (id & c & Hin & ->)%elem_of_carsJSON_list.
      exists id, c. by rewrite <-elem_of_map_to_list.
  - intros e He. unfold getCars, Car_find, storage_call. by rewrite He.
Qed.

Section listing_facts.
Variable RegExp_i : string → Result (string → bool).
Variable toLowerCase : string → string.
Variable ObjectId_isValid : string → bool.
Implicit Types (st : Store) (flt : Faults).

Lemma Car_find_hit flt k st keep found id c :
  Car_find flt k st keep = Ok found →
  (id, c) ∈ found ↔ cars st !! id = Some c ∧ keep c = true.
Proof.
  intros [_ <-]%storage_call_Ok.
  rewrite list_elem_of_filter, elem_of_map_to_list. simpl. tauto.
Qed.

Lemma exactMatch_true (found : list (string * Car)) wanted :
  existsb (λ kv, bool_decide (toLowerCase (make kv.2) = toLowerCase wanted))
          found = true ↔
  ∃ id c, (id, c) ∈ found ∧ toLowerCase (make c) = toLowerCase wanted.
Proof.
  rewrite existsb_exists. split.
  - intros ([id c] & Hin%list_elem_of_In & Heq%bool_decide_eq_true).
    by exists id, c.
  - intros (id & c & Hin%list_elem_of_In & Heq). exists (id, c).
    split; [done|]. by apply bool_decide_eq_true.
Qed.
End listing_facts.

Lemma carsByMake_run (RegExp_i : string → Result (string → bool))
    (toLowerCase : string → string) flt st wanted re :
  wanted ≠ "" →
  RegExp_i wanted = Ok re →
  flt 0%nat = None →
  carsByMake RegExp_i toLowerCase flt st (Some wanted)
  = let found := filter (λ kv, re (make kv.2) = true)
                        (map_to_list (cars st)) in
    if bool_decide (length found = 0%nat)
    then Responded (res_json (message "No cars with this make!"))
    else if existsb (λ kv, bool_decide (toLowerCase (make kv.2)
                                        = toLowerCase wanted)) found
    then Responded (res_json (JObj [("message", JStr "Make found");
                                    ("cars", carsJSON found)]))
    else Responded (res_json (message "No cars with this make!")).
Proof.
  intros Hw Hre H0. unfold carsByMake, falsy.
  rewrite bool_decide_eq_false_2 by done. cbv [default from_option id].
  rewrite Hre. unfold Car_find, storage_call. rewrite H0.
  cbn [mbind Result_bind]. case_bool_decide; [done|].
  by destruct (existsb _ _).
Qed.

(** X16. GET /carsByMake with a pattern that compiles, when the lookup
    completes: if some stored car the pattern hits has the wanted make up
    to letter case, the answer is "Make found" with every car the pattern
    hits and no other, so also cars of another make; if the pattern hits
    no car of the wanted make, the answer is "No cars with this make!",
    whatever else it hits. *)
Theorem carsByMake_outcome (RegExp_i : string → Result (string → bool))
    (toLowerCase : string → string) (flt : Faults) (st : Store)
    (wanted : string) (re : string → bool) :
  wanted ≠ "" →
  RegExp_i wanted = Ok re →
  flt 0%nat = None →
  ((∃ id c, cars st !! id = Some c ∧ re (make c) = true
            ∧ toLowerCase (make c) = toLowerCase wanted) →
   ∃ listed,
     carsByMake RegExp_i toLowerCase flt st (Some wanted)
     = Responded (res_json (JObj [("message", JStr "Make found");
                                  ("cars", JArr listed)]))
     ∧ (∀ id c, cars st !! id = Some c → re (make c) = true →
                carJSON id c ∈ listed)
     ∧ (∀ j, j ∈ listed →
             ∃ id c, cars st !! id = Some c ∧ re (make c) = true
                     ∧ j = carJSON id c))
  ∧ ((∀ id c, cars st !! id = Some c → re (make c) = true →
              toLowerCase (make c) ≠ toLowerCase wanted) →
     carsByMake RegExp_i toLowerCase flt st (Some wanted)
     = Responded (res_json (message "No cars with this make!"))).
Proof.
  intros Hw Hre H0. rewrite (carsByMake_run _ _ _ _ _ _ Hw Hre H0). cbv zeta.
  set (found := filter _ _).
  assert (Hhit : ∀ id c, (id, c) ∈ found ↔
                         cars st !! id = Some c ∧ re (make c) = true).
  { intros id c. unfold found.
    rewrite list_elem_of_filter, elem_of_map_to_list. simpl. tauto. }
  split.
  - intros (id & c & Hc & Hre' & Hlow).
    assert ((id, c) ∈ found) as Hin by by apply Hhit.
    rewrite bool_decide_eq_false_2
      by (destruct found; [by apply elem_of_nil in Hin|done]).
    rewrite (proj2 (exactMatch_true toLowerCase found wanted))
      by by exists id, c.
    eexists. split; [reflexivity|]. split.
    + intros id' c' Hc' Hre''. apply elem_of_carsJSON_list.
      exists id', c'. split; [|done]. by apply Hhit.
    + intros j (id' & c' & Hin' & ->)%elem_of_carsJSON_list.
      apply Hhit in Hin' as [? ?]. by exists id', c'.
  - intros Hnone. case_bool_decide; [done|].
    destruct (existsb _ found) eqn:Hex; [|done].
    apply exactMatch_true in Hex as (id & c & [Hc Hre']%Hhit & Hlow).
    by destruct (Hnone id c).
Qed.

Lemma carsByMake_outcome_witness :
  ∃ listed,
    carsByMake sample_RegExp_i lowercase no_faults lot_store (Some "vw")
    = Responded (res_json (JObj [("message", JStr "Make found");
                                 ("cars", JArr listed)]))
    ∧ carJSON "r2" kombi ∈ listed.
Proof.
  destruct (carsByMake_outcome sample_RegExp_i lowercase no_faults lot_store
              "vw" (λ s, String.prefix "vw" (lowercase s)))
    as [Hfound _]; [done..|].
  destruct Hfound as (listed & Hres & Hall & _).
  - exists "r1", beetle. by split_and!.
  - exists listed. split; [exact Hres|]. by apply Hall.
Defined.

(** X17. GET /carsByMake answers every failure: a wanted make that does
    not compile as a pattern, or a rejected lookup, gives status 500
    "Error fetching cars"; a missing or empty make is answered "Please
    type a make." before any storage call. *)
Theorem carsByMake_failures (RegExp_i : string → Result (string → bool))
    (toLowerCase : string → string) (flt : Faults) (st : Store) :
  (∀ wanted e,
     wanted ≠ "" →
     RegExp_i wanted = Throw e →
     carsByMake RegExp_i toLowerCase flt st (Some wanted)
     = Responded (res_status_json 500 (message "Error fetching cars")))
  ∧ (∀ wanted re e,
       wanted ≠ "" →
       RegExp_i wanted = Ok re →
       flt 0%nat = Some e →
       carsByMake RegExp_i toLowerCase flt st (Some wanted)
       = Responded (res_status_json 500 (message "Error fetching cars")))
  ∧ carsByMake RegExp_i toLowerCase flt st None
    = Responded (res_json (message "Please type a make."))
  ∧ carsByMake RegExp_i toLowerCase flt st (Some "")
    = Responded (res_json (message "Please type a make.")).
Proof.
  split_and!; try done.
  - intros wanted e Hw Hre. unfold carsByMake, falsy.
    rewrite bool_decide_eq_false_2 by done. cbv [default from_option id].
    by rewrite Hre.
  - intros wanted re e Hw Hre H0. unfold carsByMake, falsy.
    rewrite bool_decide_eq_false_2 by done. cbv [default from_option id].
    rewrite Hre. unfold Car_find, storage_call. by rewrite H0.
Qed.


(** ** Selling a car *)

(** X19. A car put up through POST /sellACar can be fetched: when the
    write completes, the answer is "Ad created" with the new car, whose
    images are the uploaded file names, and afterwards GET /cars/:carId
    under its id answers with that car and GET /cars lists it. *)
Theorem sellACar_then_getCar (ObjectId_isValid : string → bool)
    (flt flt' : Faults) (st : Store) (newId : string) (fields : Car)
    (files : list string) :
  flt 0%nat = None →
  flt' 0%nat = None →
  ObjectId_isValid newId = true →
  (sellACar flt st newId fields (Some files)).1
    = Responded
        (res_json (JObj [("message", JStr "Ad created");
                         ("car", carJSON newId (with_images files fields))]))
  ∧ getCar ObjectId_isValid flt'
           (sellACar flt st newId fields (Some files)).2 newId
    = Responded
        (res_json (JObj [("car", carJSON newId (with_images files fields))]))
  ∧ ∃ listed,
      getCars flt' (sellACar flt st newId fields (Some files)).2
      = Responded (res_json (JObj [("cars", JArr listed)]))
      ∧ carJSON newId (with_images files fields) ∈ listed.
Proof.
  intros H0 H0' Hvalid.
  assert (sellACar flt st newId fields (Some files)
          = (Responded
               (res_json
                  (JObj [("message", JStr "Ad created");
                         ("car", carJSON newId (with_images files fields))])),
             mkStore (users st)
                     (<[newId := with_images files fields]> (cars st))))
    as ->.
  { unfold sellACar, Car_create, storage_call. simpl. by rewrite H0. }
  cbn [fst snd]. split_and!; [done| |].
  - unfold getCar, Car_findById, storage_call. rewrite Hvalid, H0'. simpl.
    by rewrite lookup_insert_eq.
  - eexists. split; [by apply getCars_ok|].
    apply elem_of_carsJSON_list. exists newId, (with_images files fields).
    split; [|done]. apply elem_of_map_to_list. simpl. apply lookup_insert_eq.
Qed.

Lemma sellACar_then_getCar_witness :
  getCar sample_isValid no_faults
         (sellACar no_faults sample_store "r7" kombi (Some ["7.png"])).2 "r7"
  = Responded
      (res_json (JObj [("car", carJSON "r7" (with_images ["7.png"] kombi))])).
Proof.
  apply (sellACar_then_getCar sample_isValid no_faults no_faults sample_store
           "r7" kombi ["7.png"]); reflexivity.
Defined.

(** X20. POST /sellACar never touches the users, and changes the cars
    only when it answers "Ad created": then exactly the new car is added
    under the new id.  A ValidationError of the write is answered with its
    message and status 200, nothing being stored. *)
Theorem sellACar_effect (flt : Faults) (st : Store) (newId : string)
    (fields : Car) (files : option (list string)) :
  users (sellACar flt st newId fields files).2 = users st
  ∧ ((sellACar flt st newId fields files).2 = st
     ∨ ∃ images,
         files = Some images
         ∧ flt 0%nat = None
         ∧ sellACar flt st newId fields files
           = (Responded
                (res_json
                   (JObj [("message", JStr "Ad created");
                          ("car",
                           carJSON newId (with_images images fields))])),
              mkStore (users st)
                      (<[newId := with_images images fields]> (cars st))))
  ∧ (∀ images e,
       files = Some images →
       flt 0%nat = Some e →
       err_name e = "ValidationError" →
       sellACar flt st newId fields files
       = (Responded (res_json (message (err_message e))), st)).
Proof.
  unfold sellACar, Car_create, storage_call.
  destruct files as [images|]; simpl.
  - destruct (flt 0%nat) as [e|]; simpl.
    + case_bool_decide as Hname; simpl; split_and!; try done; try by left.
      * by intros ? ? [= <-] [= <-] _.
      * by intros ? ? _ [= <-] ?.
    + split_and!; [done| |done]. right. by exists images.
  - split_and!; [done|by left|done].
Qed.

(** ** Mail to the owner of a car *)

Lemma falsy_false (v : option string) :
  falsy v = false ↔ ∃ s, v = Some s ∧ s ≠ "".
Proof.
  destruct v as [s|]; simpl.
  - rewrite bool_decide_eq_false. split; [by exists s|].
    by intros (s' & [= <-] & Hne).
  - split; [done|]. by intros (? & ? & _).
Qed.

(** X21. POST /sendEmail with the five required fields hands exactly one
    mail to the transport and answers "Email sent successfully!" once the
    transport has taken it.  The mail goes to the [carOwnerEmail] of the
    request body; the subject is not required, and without one the
    subject line ends in "your undefined!". *)
Theorem sendEmail_complete (flt : Faults) (outbox : list Mail)
    (n e num m owner : string) (subject : option string) :
  n ≠ "" → e ≠ "" → num ≠ "" → m ≠ "" → owner ≠ "" →
  flt 0%nat = None →
  ∃ mail,
    sendEmail flt outbox
      (mkEmailBody (Some n) (Some e) (Some num) (Some m) (Some owner) subject)
    = (Responded (res_json (message "Email sent successfully!")),
       outbox ++ [mail])
    ∧ mail_to mail = owner
    ∧ mail_subject_line mail
      = n +:+ " is INTERESTED in your "
          +:+ match subject with Some s => s | None => "undefined" end
          +:+ "!".
Proof.
  intros Hn He Hnum Hm Ho H0. eexists. unfold sendEmail, storage_call.
  cbn [mail_name mail_email mail_number mail_message mail_carOwnerEmail falsy].
  rewrite !bool_decide_eq_false_2 by done. rewrite H0. simpl.
  split_and!; [reflexivity|reflexivity|]. by destruct subject.
Qed.

Lemma sendEmail_complete_witness :
  ∃ mail,
    sendEmail no_faults []
      (mkEmailBody (Some "Ann") (Some "a@x.com") (Some "555") (Some "hi")
                   (Some "o@x.com") None)
    = (Responded (res_json (message "Email sent successfully!")), [] ++ [mail])
    ∧ mail_to mail = "o@x.com"
    ∧ mail_subject_line mail = "Ann is INTERESTED in your undefined!".
Proof.
  apply (sendEmail_complete no_faults [] "Ann" "a@x.com" "555" "hi" "o@x.com"
           None); done.
Defined.

(** X22. POST /sendEmail hands nothing to the transport unless all of
    name, email, number, message and carOwnerEmail are present and not
    empty: whenever the mails handed over have changed, the five fields
    were there, one mail was added, and the answer has status 200.  A
    request lacking one of them is answered 400 whatever the transport
    does, and a rejecting transport is answered 500. *)
Theorem sendEmail_needs_fields (flt : Faults) (outbox : list Mail)
    (b : EmailBody) :
  ((sendEmail flt outbox b).2 ≠ outbox →
   (∀ field, field ∈ [mail_name b; mail_email b; mail_number b;
                      mail_message b; mail_carOwnerEmail b] →
             ∃ s, field = Some s ∧ s ≠ "")
   ∧ sendEmail flt outbox b
     = (Responded (res_json (message "Email sent successfully!")),
        outbox ++ [mailOptions b]))
  ∧ (∀ field, field ∈ [mail_name b; mail_email b; mail_number b;
                       mail_message b; mail_carOwnerEmail b] →
              falsy field = true →
              sendEmail flt outbox b
              = (Responded
                   (res_status_json 400 (message "All fields are required!")),
                 outbox))
  ∧ (∀ err, flt 0%nat = Some err →
            (sendEmail flt outbox b).1
            = Responded
                (res_status_json 400 (message "All fields are required!"))
            ∨ (sendEmail flt outbox b).1
              = Responded
                  (res_status_json 500 (message "Error sending email"))).
Proof.
  unfold sendEmail, storage_call.
  destruct (falsy (mail_name b)) eqn:H1, (falsy (mail_email b)) eqn:H2,
    (falsy (mail_number b)) eqn:H3, (falsy (mail_message b)) eqn:H4,
    (falsy (mail_carOwnerEmail b)) eqn:H5; simpl;
    try (split_and!; [done|done|by left]).
  destruct (flt 0%nat) as [err|] eqn:H0; simpl.
  - split_and!; [done| |by right].
    intros field Hin Hf. repeat (apply elem_of_cons in Hin as [->|Hin];
      [congruence|]). by apply elem_of_nil in Hin.
  - split_and!; [|  |done].
    + intros _. split; [|done]. intros field Hin. apply falsy_false.
      repeat (apply elem_of_cons in Hin as [->|Hin]; [done|]).
      by apply elem_of_nil in Hin.
    + intros field Hin Hf. repeat (apply elem_of_cons in Hin as [->|Hin];
        [congruence|]). by apply elem_of_nil in Hin.
Qed.

(** ** Names of uploaded files *)

Lemma split_on_no_sep (sep : ascii) (s : string) :
  sep ∉ String.list_ascii_of_string s → split_on sep s = [s].
Proof.
  induction s as [|c s IH]; [done|]. simpl.
  intros [Hc Hs]%not_elem_of_cons.
  rewrite decide_False by done. by rewrite IH.
Qed.

Lemma split_on_head (sep : ascii) (h t : string) :
  sep ∉ String.list_ascii_of_string h →
  split_on sep (h +:+ String sep t) = h :: split_on sep t.
Proof.
  induction h as [|c h IH]; simpl.
  - intros _. by rewrite decide_True.
  - intros [Hc Hh]%not_elem_of_cons.
    rewrite decide_False by done. by rewrite IH.
Qed.

(** X23. The stored name of an upload is the upload time followed by the
    subtype of its MIME type: a file of type image/<sub> passes the filter
    and is named <now>.<sub>.  A type without a slash gives the name
    <now>.undefined, and the filter lets such a type through when it
    starts with "image". *)
Theorem upload_filename (now : Z) :
  (∀ sub,
     "/"%char ∉ String.list_ascii_of_string sub →
     multerFilter ("image/" +:+ sub) = Ok true
     ∧ filename now ("image/" +:+ sub) = pretty now +:+ "." +:+ sub)
  ∧ (∀ mimetype,
       "/"%char ∉ String.list_ascii_of_string mimetype →
       filename now mimetype = pretty now +:+ ".undefined")
  ∧ multerFilter "image" = Ok true
  ∧ (∀ mimetype,
       String.prefix "image" mimetype = false →
       multerFilter mimetype
       = Throw (mkError "Error" None "Not an image! Only images allowed.")).
Proof.
  split_and!.
  - intros sub Hsub. split; [done|]. unfold filename.
    change ("image/" +:+ sub) with ("image" +:+ String "/" sub).
    rewrite split_on_head.
    + by rewrite split_on_no_sep.
    + simpl. rewrite !not_elem_of_cons. split_and!; try done.
      apply not_elem_of_nil.
  - intros mimetype Hm. unfold filename. by rewrite split_on_no_sep.
  - done.
  - intros mimetype Hp. unfold multerFilter. by rewrite Hp.
Qed.

(** ** Invariants of the collections *)

Lemma lower_ascii_idemp (c : ascii) : lower_ascii (lower_ascii c) = lower_ascii c.
Proof. by destruct c as [[] [] [] [] [] [] [] []]. Qed.

Lemma lowercase_idemp (s : string) : lowercase (lowercase s) = lowercase s.
Proof.
  induction s as [|c s IH]; [done|]. simpl. by rewrite lower_ascii_idemp, IH.
Qed.

Lemma signup_store flt st newId b :
  (signup flt st newId b).2 = st
  ∨ (signup flt st newId b).2
    = set_users (<[newId := mkUser (body_name b) (lowercase (body_email b))
                                   (body_password b) (body_passwordConfirm b)
                                   []]> (users st)) st.
Proof.
  unfold signup, findOne_email, User_create, storage_call.
  destruct (flt 0%nat) as [e|]; simpl.
  { left. by repeat case_bool_decide. }
  destruct (list_find _ _); simpl; [by left|].
  destruct (flt 1%nat) as [e|]; simpl; [|by right].
  left. by repeat case_bool_decide.
Qed.

Lemma sellACar_store flt st newId fields files :
  (sellACar flt st newId fields files).2 = st
  ∨ ∃ images,
      (sellACar flt st newId fields files).2
      = mkStore (users st) (<[newId := with_images images fields]> (cars st)).
Proof.
  unfold sellACar, Car_create, storage_call.
  destruct files as [images|]; simpl; [|by left].
  destruct (flt 0%nat) as [e|]; simpl; [|right; by exists images].
  left. by case_bool_decide.
Qed.

Section run_facts.
Variable castObjectId : string → option string.

Lemma serve_keeps_account st c id u :
  fresh st c →
  users st !! id = Some u →
  ∃ u', users (serve castObjectId st c) !! id = Some u'
        ∧ name u' = name u ∧ email u' = email u
        ∧ password u' = password u
        ∧ passwordConfirm u' = passwordConfirm u.
Proof.
  intros Hfresh Hu.
  destruct c as [flt newId b|flt newId fields files|flt carId userId];
    simpl in *.
  - destruct (signup_store flt st newId b) as [->| ->]; [by exists u|].
    exists u. simpl. rewrite lookup_insert_ne; [done|]. congruence.
  - destruct (sellACar_store flt st newId fields files) as [->|[images ->]];
      by exists u.
  - destruct (favoriteCar_store castObjectId flt st carId userId)
      as [->|(v & favs & Hv & _ & ->)]; [by exists u|].
    simpl. destruct (decide (userId = id)) as [->|Hne].
    + rewrite lookup_insert_eq. eexists. split; [done|].
      by simplify_eq.
    + rewrite lookup_insert_ne by done. by exists u.
Qed.

Lemma serve_keeps_car st c id car :
  fresh st c →
  cars st !! id = Some car →
  cars (serve castObjectId st c) !! id = Some car.
Proof.
  intros Hfresh Hc.
  destruct c as [flt newId b|flt newId fields files|flt carId userId];
    simpl in *.
  - by destruct (signup_store flt st newId b) as [->| ->].
  - destruct (sellACar_store flt st newId fields files) as [->|[images ->]];
      [done|].
    simpl. rewrite lookup_insert_ne; [done|]. congruence.
  - by destruct (favoriteCar_store castObjectId flt st carId userId)
      as [->|(v & favs & Hv & _ & ->)].
Qed.

Lemma serve_NoDup st c :
  spelled_canonically castObjectId c →
  favorites_NoDup st → favorites_NoDup (serve castObjectId st c).
Proof.
  intros Hcanon Hinv.
  destruct c as [flt newId b|flt newId fields files|flt carId userId];
    simpl.
  - destruct (signup_store flt st newId b) as [->| ->]; [done|].
    intros id u. simpl. rewrite lookup_insert.
    destruct (decide (newId = id)); [|apply Hinv].
    intros [= <-]. apply NoDup_nil_2.
  - by destruct (sellACar_store flt st newId fields files) as [->|[images ->]].
  - by apply favoriteCar_NoDup.
Qed.

Lemma serve_lowercase st c :
  emails_lowercase st → emails_lowercase (serve castObjectId st c).
Proof.
  intros Hinv.
  destruct c as [flt newId b|flt newId fields files|flt carId userId];
    simpl.
  - destruct (signup_store flt st newId b) as [->| ->]; [done|].
    intros id u. simpl. rewrite lookup_insert.
    destruct (decide (newId = id)); [|apply Hinv].
    intros [= <-]. apply lowercase_idemp.
  - by destruct (sellACar_store flt st newId fields files) as [->|[images ->]].
  - destruct (favoriteCar_store castObjectId flt st carId userId)
      as [->|(v & favs & Hv & _ & ->)]; [done|].
    intros id u. simpl. rewrite lookup_insert.
    destruct (decide (userId = id)) as [<-|]; [|apply Hinv].
    intros [= <-]. simpl. by eapply Hinv.
Qed.
End run_facts.

(** X24. No sequence of signup, sell and toggle requests removes a stored
    user or changes a stored user's name, email or password, as long as
    the storage engine gives new documents unused ids; only the
    favorites of a user can differ afterwards. *)
Theorem run_keeps_accounts (castObjectId : string → option string)
    (calls : list Call) (st : Store) (id : string) (u : User) :
  all_fresh castObjectId st calls →
  users st !! id = Some u →
  ∃ u', users (run castObjectId st calls) !! id = Some u'
        ∧ name u' = name u ∧ email u' = email u
        ∧ password u' = password u
        ∧ passwordConfirm u' = passwordConfirm u.
Proof.
  revert st u. induction calls as [|c calls IH]; intros st u Hfresh Hu.
  - by exists u.
  - destruct Hfresh as [Hc Hrest].
    destruct (serve_keeps_account castObjectId st c id u Hc Hu)
      as (u1 & Hu1 & Hn & He & Hp & Hpc).
    destruct (IH _ _ Hrest Hu1) as (u' & Hu' & Hn' & He' & Hp' & Hpc').
    exists u'. split; [exact Hu'|]. split_and!; congruence.
Qed.

Lemma run_keeps_accounts_witness :
  ∃ u', users (run sample_castObjectId sample_store sample_run) !! "u2"
        = Some u'
        ∧ name u' = name bob ∧ email u' = email bob
        ∧ password u' = password bob
        ∧ passwordConfirm u' = passwordConfirm bob.
Proof.
  apply (run_keeps_accounts sample_castObjectId sample_run sample_store "u2"
           bob); [|reflexivity].
  repeat split; reflexivity.
Defined.

(** X25. A stored car is never changed or removed by any sequence of
    signup, sell and toggle requests, as long as the storage engine gives
    new documents unused ids. *)
Theorem run_keeps_cars (castObjectId : string → option string)
    (calls : list Call) (st : Store) (id : string) (car : Car) :
  all_fresh castObjectId st calls →
  cars st !! id = Some car →
  cars (run castObjectId st calls) !! id = Some car.
Proof.
  revert st. induction calls as [|c calls IH]; intros st Hfresh Hc; [done|].
  destruct Hfresh as [Hfc Hrest]. simpl. apply IH; [done|].
  by apply serve_keeps_car.
Qed.

Lemma run_keeps_cars_witness :
  cars (run sample_castObjectId sample_store sample_run) !! "r1"
  = Some beetle.
Proof.
  apply (run_keeps_cars sample_castObjectId sample_run sample_store "r1"
           beetle); [|reflexivity].
  repeat split; reflexivity.
Defined.

(** X26. Two invariants of the user collection under any sequence of
    signup, sell and toggle requests, whichever storage calls fail: every
    stored email is in lower case; and no favorites list holds an id
    twice, provided every toggle request spells its car id as ids are
    rendered or with a text that is no id. *)
Theorem run_invariants (castObjectId : string → option string)
    (calls : list Call) (st : Store) :
  favorites_NoDup st →
  emails_lowercase st →
  emails_lowercase (run castObjectId st calls)
  ∧ (Forall (spelled_canonically castObjectId) calls →
     favorites_NoDup (run castObjectId st calls)).
Proof.
  intros Hnd Hlow. split.
  - clear Hnd. revert st Hlow.
    induction calls as [|c calls IH]; intros st Hlow; [done|].
    simpl. apply IH. by apply serve_lowercase.
  - clear Hlow. intros Hcanon. revert st Hnd.
    induction Hcanon as [|c calls Hc Hcalls IH]; intros st Hnd; [done|].
    simpl. apply IH. by apply serve_NoDup.
Qed.

Lemma run_invariants_witness :
  emails_lowercase (run sample_castObjectId (mkStore ∅ ∅) sample_run)
  ∧ favorites_NoDup (run sample_castObjectId (mkStore ∅ ∅) sample_run).
Proof.
  destruct (run_invariants sample_castObjectId sample_run (mkStore ∅ ∅))
    as [Hlow Hnd].
  - intros id u. simpl. by rewrite lookup_empty.
  - intros id u. simpl. by rewrite lookup_empty.
  - split; [exact Hlow|]. apply Hnd.
    repeat (apply Forall_cons; split; [simpl; auto|]).
    apply Forall_nil_2.
Defined.
